(** * rewrite: variables to functions, and their usage sites

    A shallow embedding of the Python package [rewrite]
    (scanner.py, analyzer.py, transformer.py, usage_updater.py, config.py,
    cli.py) and the properties of its specification that can be settled on
    it.

    Python values are modelled as follows.
    - [str] is [string]; a [Path] is the list of its components below the
      filesystem root, so the root itself is [[]];
    - a [dict] with string keys is a [gmap string _], a [set] of strings a
      [gset string];
    - the host syntax tree ([ast]) is one inductive type [node], as Python's
      nodes are told apart by [isinstance] at run time;
    - [ast.parse] and [ast.unparse] are the host's; they are parameters of
      the engine, and a rendering of the fragment used in the examples is
      given as [py_unparse]; so are [json.load], [json.dump], [fnmatch],
      [Path.home()], the [git] process behind [find_git_root] and the
      outcome of [parser.parse_args()];
    - a run acts on a [world]: the filesystem, the trace of the files it
      opens, the lines on the standard input and the paths that refuse to
      be written. *)

From Stdlib Require Import Ascii List Bool Arith Lia.
From stdpp Require Import base option list strings gmap pretty.

(** ** Paths and the filesystem *)

Definition path := list string.

(** [Path.parent]: the root is its own parent. *)
Definition parent (p : path) : path := removelast p.

(** [p / name] *)
Definition joinpath (p : path) (name : string) : path := p ++ [name].

(** [Path.name]: the last component, empty for the root. *)
Definition path_name (p : path) : string := List.last p "".

(** What sits at a path: a directory, or a file. A file whose text is [None]
    cannot be read ([open] or [read] raises). *)
Inductive entry :=
| Dir
| File (text : option string).

#[global] Instance entry_eq_dec : EqDecision entry.
Proof. solve_decision. Defined.

Abbreviation filesystem := (gmap path entry).

Definition path_exists (fs : filesystem) (p : path) : bool :=
  bool_decide (is_Some (fs !! p)).

Definition path_is_file (fs : filesystem) (p : path) : bool :=
  match fs !! p with
  | Some (File _) => true
  | _ => false
  end.

(** ** scanner.py *)

Module Scanner.

Section FindModuleRoot.

Variable fs : filesystem.

(** The result of [find_git_root]: the version-control collaborator is
    outside the engine and only its answer is used. *)
Variable git_root : option path.

(** The [while True] loop of [find_module_root]. Every iteration that does
    not [break] replaces [current_dir] by its parent, which is shorter, so
    [S (length current_dir)] iterations are enough; [None] only when the
    fuel runs out. *)
Fixpoint climb (fuel : nat) (module_root current_dir : path) : option path :=
  match fuel with
  | 0 => None
  | S fuel' =>
      let parent_dir := parent current_dir in
      if bool_decide (parent_dir = current_dir) then Some module_root
      else if bool_decide (git_root = Some current_dir) then Some module_root
      else if negb (path_exists fs (joinpath parent_dir "__init__.py"))
           then Some module_root
      else climb fuel' current_dir parent_dir
  end.

(** [find_module_root(target_file)], on the resolved path of the target. *)
Definition find_module_root (target_path : path) : option path :=
  let current_dir := parent target_path in
  climb (S (length current_dir)) current_dir current_dir.

(** The directory at which the loop stops: the value of [current_dir] at
    the [break]. This follows the words of the specification (and of the
    comment in the loop), not the [return] statement. *)
Fixpoint stop_dir (fuel : nat) (current_dir : path) : option path :=
  match fuel with
  | 0 => None
  | S fuel' =>
      let parent_dir := parent current_dir in
      if bool_decide (parent_dir = current_dir) then Some current_dir
      else if bool_decide (git_root = Some current_dir) then Some current_dir
      else if negb (path_exists fs (joinpath parent_dir "__init__.py"))
           then Some current_dir
      else stop_dir fuel' parent_dir
  end.

Definition climbing_stopped_at (target_path : path) : option path :=
  let current_dir := parent target_path in
  stop_dir (S (length current_dir)) current_dir.

End FindModuleRoot.

End Scanner.

(** ** The host syntax tree *)

Module Ast.

Inductive expr_context := Load | Store | Del.

Inductive constant :=
| CNone
| CBool (b : bool)
| CInt (n : N)
| CStr (s : string).

(** The location attributes of a node. An attribute a node was built without
    is [None]; every node that comes out of the parser has all four. *)
Record location := Loc {
  lineno : option nat;
  col_offset : option nat;
  end_lineno : option nat;
  end_col_offset : option nat
}.

Definition parsed_at (l c el ec : nat) : location :=
  Loc (Some l) (Some c) (Some el) (Some ec).

Record alias := Alias {
  alias_name : string;
  asname : option string
}.

Set Warnings "-register-all".

(** The node classes the engine names, each with the fields of the host
    class in the host's order, and [Other] for every other class: its child
    nodes in field order. *)
Inductive node :=
| Module (body : list node)
| Assign (targets : list node) (value : node) (loc : location)
| FunctionDef (name : string) (args : node) (body : list node)
    (decorator_list : list node) (returns : option node) (loc : location)
| Arguments (posonlyargs args : list node) (vararg : option node)
    (kwonlyargs : list node) (kw_defaults : list (option node))
    (kwarg : option node) (defaults : list node)
| Arg (arg : string) (annotation : option node) (loc : location)
| Return (value : option node) (loc : location)
| Import (names : list alias) (loc : location)
| ImportFrom (module : option string) (names : list alias) (level : nat)
    (loc : location)
| Expr (value : node) (loc : location)
| Name (id : string) (ctx : expr_context) (loc : location)
| Attribute (value : node) (attr : string) (ctx : expr_context)
    (loc : location)
| Call (func : node) (args : list node) (keywords : list node)
    (loc : location)
| Constant (value : constant) (loc : location)
| Tuple (elts : list node) (ctx : expr_context) (loc : location)
| Other (kind : string) (children : list node) (loc : option location).

(** [ast.iter_child_nodes]: the child nodes, in field order. The host also
    yields the [alias] and context objects; they are leaves of classes that
    no function below tests for, and are left out. *)
Definition iter_child_nodes (n : node) : list node :=
  match n with
  | Module body => body
  | Assign targets value _ => targets ++ [value]
  | FunctionDef _ args body decorator_list returns _ =>
      args :: body ++ decorator_list ++ option_list returns
  | Arguments posonlyargs args vararg kwonlyargs kw_defaults kwarg defaults =>
      posonlyargs ++ args ++ option_list vararg ++ kwonlyargs
        ++ omap id kw_defaults ++ option_list kwarg ++ defaults
  | Arg _ annotation _ => option_list annotation
  | Return value _ => option_list value
  | Import _ _ => []
  | ImportFrom _ _ _ _ => []
  | Expr value _ => [value]
  | Name _ _ _ => []
  | Attribute value _ _ _ => [value]
  | Call func args keywords _ => func :: args ++ keywords
  | Constant _ _ => []
  | Tuple elts _ _ => elts
  | Other _ children _ => children
  end.

(** The number of nodes of a tree. *)
Fixpoint node_size (n : node) : nat :=
  let sizes := fun l => sum_list (map node_size l) in
  let osize := fun o => from_option node_size 0 o in
  match n with
  | Module body => S (sizes body)
  | Assign targets value _ => S (sizes targets + node_size value)
  | FunctionDef _ args body decorator_list returns _ =>
      S (node_size args + sizes body + sizes decorator_list + osize returns)
  | Arguments posonlyargs args vararg kwonlyargs kw_defaults kwarg defaults =>
      S (sizes posonlyargs + sizes args + osize vararg + sizes kwonlyargs
         + sum_list (map (from_option node_size 0) kw_defaults)
         + osize kwarg + sizes defaults)
  | Arg _ annotation _ => S (osize annotation)
  | Return value _ => S (osize value)
  | Import _ _ => 1
  | ImportFrom _ _ _ _ => 1
  | Expr value _ => S (node_size value)
  | Name _ _ _ => 1
  | Attribute value _ _ _ => S (node_size value)
  | Call func args keywords _ => S (node_size func + sizes args + sizes keywords)
  | Constant _ _ => 1
  | Tuple elts _ _ => S (sizes elts)
  | Other _ children _ => S (sizes children)
  end.

(** [ast.walk]: [todo] is the deque; a node is taken from its left end and
    its children are appended at the right. Each step yields one node, so
    [node_size] steps empty the deque. *)
Fixpoint walk_queue (fuel : nat) (todo : list node) : list node :=
  match fuel, todo with
  | S fuel', n :: rest => n :: walk_queue fuel' (rest ++ iter_child_nodes n)
  | _, _ => []
  end.

Definition walk (tree : node) : list node :=
  walk_queue (node_size tree) [tree].

(** A node of the tree: the tree itself or a node of one of its children. *)
Inductive subnode : node → node → Prop :=
| subnode_refl n : subnode n n
| subnode_child d c n :
    c ∈ iter_child_nodes n → subnode d c → subnode d n.

(** ** Strings as the host handles them *)

Definition startswith (s p : string) : bool :=
  bool_decide (String.list_ascii_of_string p `prefix_of`
               String.list_ascii_of_string s).

Definition endswith (s t : string) : bool :=
  bool_decide (String.list_ascii_of_string t `suffix_of`
               String.list_ascii_of_string s).

(** [s[a:b]] on the encoded text. *)
Definition slice (s : string) (a b : nat) : string :=
  String.substring a (b - a) s.

Definition slice_from (s : string) (a : nat) : string :=
  String.substring a (String.length s - a) s.

Definition is_CR (c : ascii) : bool := bool_decide (c = "013"%char).
Definition is_LF (c : ascii) : bool := bool_decide (c = "010"%char).

(** [ast._splitlines_no_ff]: lines with their endings, split at LF, CR and
    CR LF only. [next_line] is the line being built. *)
Fixpoint splitlines_no_ff (source : string) (next_line : string) : list string :=
  match source with
  | EmptyString =>
      if bool_decide (next_line = "") then [] else [next_line]
  | String c rest =>
      if is_CR c then
        match rest with
        | String c' rest' =>
            if is_LF c' then
              (next_line +:+ String c (String c' "")) :: splitlines_no_ff rest' ""
            else (next_line +:+ String c "") :: splitlines_no_ff rest ""
        | EmptyString => [next_line +:+ String c ""]
        end
      else if is_LF c then
        (next_line +:+ String c "") :: splitlines_no_ff rest ""
      else splitlines_no_ff rest (next_line +:+ String c "")
  end.

(** The location attributes of a node, when its class has them. *)
Definition node_loc (n : node) : option location :=
  match n with
  | Module _ => None
  | Arguments _ _ _ _ _ _ _ => None
  | Assign _ _ l | FunctionDef _ _ _ _ _ l | Arg _ _ l | Return _ l
  | Import _ l | ImportFrom _ _ _ l | Expr _ l | Name _ _ l
  | Attribute _ _ _ l | Call _ _ _ l | Constant _ l | Tuple _ _ l => Some l
  | Other _ _ l => l
  end.

(** [ast.get_source_segment(source, node)]. [None] when an end position is
    missing; a line number outside the text, which the host answers with an
    [IndexError], does not occur for a tree parsed from [source] and is
    [None] here as well. *)
Definition get_source_segment (source : string) (n : node) : option string :=
  l ← node_loc n;
  end_line ← end_lineno l;
  end_col ← end_col_offset l;
  line ← lineno l;
  col ← col_offset l;
  let lines := splitlines_no_ff source "" in
  let lineno0 := line - 1 in
  let end_lineno0 := end_line - 1 in
  if bool_decide (end_lineno0 = lineno0) then
    first_line ← lines !! lineno0;
    Some (slice first_line col end_col)
  else
    first_line ← lines !! lineno0;
    last_line ← lines !! end_lineno0;
    let first := slice_from first_line col in
    let last := slice last_line 0 end_col in
    let middle := take (end_lineno0 - (lineno0 + 1)) (drop (lineno0 + 1) lines) in
    Some (String.concat "" (first :: middle ++ [last])).

End Ast.

Import Ast.

(** ** analyzer.py *)

Module Analyzer.

(** The dataclass [Variable]. *)
Record Variable_ := mkVariable {
  name : string;
  lineno : option nat;
  value_node : node;
  value_source : string
}.

Record SkippedPattern := mkSkippedPattern {
  skipped_lineno : option nat;
  reason : string;
  source : string
}.

Definition is_lower (c : ascii) : bool :=
  (97 <=? nat_of_ascii c) && (nat_of_ascii c <=? 122).

Definition is_digit (c : ascii) : bool :=
  (48 <=? nat_of_ascii c) && (nat_of_ascii c <=? 57).

Definition is_word_char (c : ascii) : bool :=
  is_lower c || is_digit c || bool_decide (c = "_"%char).

(** The tail [[a-z0-9_]*$] of the pattern: [$] also matches just before a
    line feed that ends the text. *)
Fixpoint match_tail (s : string) : bool :=
  match s with
  | EmptyString => true
  | String c rest =>
      (is_word_char c && match_tail rest)
      || (is_LF c && bool_decide (rest = ""))
  end.

(** [re.match(r"^[a-z][a-z0-9_]*$", name) is not None] *)
Definition is_lowercase_snake_case (name : string) : bool :=
  match name with
  | EmptyString => false
  | String c rest => is_lower c && match_tail rest
  end.

(** [source_line or "<unknown>"] *)
Definition or_unknown (segment : option string) : string :=
  match segment with
  | Some s => if bool_decide (s = "") then "<unknown>" else s
  | None => "<unknown>"
  end.

(** What one iteration of the loop over [ast.walk(tree)] appends. *)
Inductive finding :=
| FoundVariable (v : Variable_)
| FoundSkipped (s : SkippedPattern).

(** The body of the loop, for one node. *)
Definition classify (source : string) (n : node) : option finding :=
  match n with
  | Assign targets value loc =>
      if negb (bool_decide (col_offset loc = Some 0)) then None
      else if 1 <? length targets then
        Some (FoundSkipped
                (mkSkippedPattern (Ast.lineno loc) "multiple assignment"
                   (or_unknown (get_source_segment source n))))
      else
        match targets with
        | [] => None
        | target :: _ =>
            match target with
            | Tuple _ _ _ =>
                Some (FoundSkipped
                        (mkSkippedPattern (Ast.lineno loc) "tuple unpacking"
                           (or_unknown (get_source_segment source n))))
            | Name var_name _ _ =>
                if negb (is_lowercase_snake_case var_name) then None
                else if startswith var_name "_" then None
                else
                  Some (FoundVariable
                          (mkVariable var_name (Ast.lineno loc) value
                             (or_unknown (get_source_segment source value))))
            | _ => None
            end
        end
  | _ => None
  end.

Definition found_variable (f : finding) : option Variable_ :=
  match f with FoundVariable v => Some v | FoundSkipped _ => None end.

Definition found_skipped (f : finding) : option SkippedPattern :=
  match f with FoundSkipped s => Some s | FoundVariable _ => None end.

(** The analysis of a parsed file: the two lists, in the order of the walk. *)
Definition analyze_tree (source : string) (tree : node)
  : list Variable_ * list SkippedPattern :=
  let found := omap (classify source) (walk tree) in
  (omap found_variable found, omap found_skipped found).

End Analyzer.

(** ** The host's [NodeTransformer] and [fix_missing_locations] *)

Module NodeTransformer.

Section Thread.
Context {A St : Type}.
Variable f : A → St → A * St.

(** Visit the items of a list field from left to right. *)
Fixpoint thread (l : list A) (st : St) : list A * St :=
  match l with
  | [] => ([], st)
  | x :: l' =>
      let '(x', st1) := f x st in
      let '(l'', st2) := thread l' st1 in
      (x' :: l'', st2)
  end.

Definition thread_option (o : option A) (st : St) : option A * St :=
  match o with
  | Some x => let '(x', st1) := f x st in (Some x', st1)
  | None => (None, st)
  end.
End Thread.

Section Visit.
(** The state of the transformer object. *)
Context {St : Type}.

(** The [visit_<Class>] methods: [Some] is what the method returns for a
    node it handles itself, [None] where [visit] falls through to
    [generic_visit] (no method for the class, or the method ends with
    [return self.generic_visit(node)]). Every method of this package
    returns a node, so a field keeps its length. *)
Variable method : node → St → option (node * St).

(** [NodeTransformer.visit]; the inner [match] is [generic_visit], which
    visits the fields in order and stores the results back. *)
Fixpoint visit (n : node) (st : St) {struct n} : node * St :=
  match method n st with
  | Some r => r
  | None =>
      match n with
      | Module body =>
          let '(body', st) := thread visit body st in
          (Module body', st)
      | Assign targets value loc =>
          let '(targets', st) := thread visit targets st in
          let '(value', st) := visit value st in
          (Assign targets' value' loc, st)
      | FunctionDef name args body decorator_list returns loc =>
          let '(args', st) := visit args st in
          let '(body', st) := thread visit body st in
          let '(decorator_list', st) := thread visit decorator_list st in
          let '(returns', st) := thread_option visit returns st in
          (FunctionDef name args' body' decorator_list' returns' loc, st)
      | Arguments posonlyargs args vararg kwonlyargs kw_defaults kwarg
          defaults =>
          let '(posonlyargs', st) := thread visit posonlyargs st in
          let '(args', st) := thread visit args st in
          let '(vararg', st) := thread_option visit vararg st in
          let '(kwonlyargs', st) := thread visit kwonlyargs st in
          let '(kw_defaults', st) :=
            thread (thread_option visit) kw_defaults st in
          let '(kwarg', st) := thread_option visit kwarg st in
          let '(defaults', st) := thread visit defaults st in
          (Arguments posonlyargs' args' vararg' kwonlyargs' kw_defaults'
             kwarg' defaults', st)
      | Arg arg annotation loc =>
          let '(annotation', st) := thread_option visit annotation st in
          (Arg arg annotation' loc, st)
      | Return value loc =>
          let '(value', st) := thread_option visit value st in
          (Return value' loc, st)
      | Import names loc => (n, st)
      | ImportFrom module names level loc => (n, st)
      | Expr value loc =>
          let '(value', st) := visit value st in
          (Expr value' loc, st)
      | Name id ctx loc => (n, st)
      | Attribute value attr ctx loc =>
          let '(value', st) := visit value st in
          (Attribute value' attr ctx loc, st)
      | Call func args keywords loc =>
          let '(func', st) := visit func st in
          let '(args', st) := thread visit args st in
          let '(keywords', st) := thread visit keywords st in
          (Call func' args' keywords' loc, st)
      | Constant value loc => (n, st)
      | Tuple elts ctx loc =>
          let '(elts', st) := thread visit elts st in
          (Tuple elts' ctx loc, st)
      | Other kind children loc =>
          let '(children', st) := thread visit children st in
          (Other kind children' loc, st)
      end
  end.
End Visit.

End NodeTransformer.

Module FixLocations.

(** The four values [_fix] hands down: line, column, end line, end column. *)
Record inherited := Inh {
  inh_lineno : nat;
  inh_col_offset : nat;
  inh_end_lineno : nat;
  inh_end_col_offset : nat
}.

(** The four [if] blocks of [_fix] for a node that has location attributes:
    a missing attribute is set to the inherited value, a present one
    replaces the inherited value for the children. *)
Definition fix_location (l : location) (inh : inherited)
  : location * inherited :=
  let ln := default (inh_lineno inh) (Ast.lineno l) in
  let eln := default (inh_end_lineno inh) (end_lineno l) in
  let co := default (inh_col_offset inh) (col_offset l) in
  let eco := default (inh_end_col_offset inh) (end_col_offset l) in
  (Loc (Some ln) (Some co) (Some eln) (Some eco), Inh ln co eln eco).

Fixpoint fix_node (n : node) (inh : inherited) {struct n} : node :=
  let fix_list := fun (l : list node) i => map (fun c => fix_node c i) l in
  let fix_opt := fun (o : option node) i => (fun c => fix_node c i) <$> o in
  match n with
  | Module body => Module (fix_list body inh)
  | Assign targets value loc =>
      let '(loc', i) := fix_location loc inh in
      Assign (fix_list targets i) (fix_node value i) loc'
  | FunctionDef name args body decorator_list returns loc =>
      let '(loc', i) := fix_location loc inh in
      FunctionDef name (fix_node args i) (fix_list body i)
        (fix_list decorator_list i) (fix_opt returns i) loc'
  | Arguments posonlyargs args vararg kwonlyargs kw_defaults kwarg defaults =>
      Arguments (fix_list posonlyargs inh) (fix_list args inh)
        (fix_opt vararg inh) (fix_list kwonlyargs inh)
        (map (fun o => fix_opt o inh) kw_defaults)
        (fix_opt kwarg inh) (fix_list defaults inh)
  | Arg arg annotation loc =>
      let '(loc', i) := fix_location loc inh in
      Arg arg (fix_opt annotation i) loc'
  | Return value loc =>
      let '(loc', i) := fix_location loc inh in
      Return (fix_opt value i) loc'
  | Import names loc => Import names (fix_location loc inh).1
  | ImportFrom module names level loc =>
      ImportFrom module names level (fix_location loc inh).1
  | Expr value loc =>
      let '(loc', i) := fix_location loc inh in
      Expr (fix_node value i) loc'
  | Name id ctx loc => Name id ctx (fix_location loc inh).1
  | Attribute value attr ctx loc =>
      let '(loc', i) := fix_location loc inh in
      Attribute (fix_node value i) attr ctx loc'
  | Call func args keywords loc =>
      let '(loc', i) := fix_location loc inh in
      Call (fix_node func i) (fix_list args i) (fix_list keywords i) loc'
  | Constant value loc => Constant value (fix_location loc inh).1
  | Tuple elts ctx loc =>
      let '(loc', i) := fix_location loc inh in
      Tuple (fix_list elts i) ctx loc'
  | Other kind children None => Other kind (fix_list children inh) None
  | Other kind children (Some loc) =>
      let '(loc', i) := fix_location loc inh in
      Other kind (fix_list children i) (Some loc')
  end.

(** [ast.fix_missing_locations(node)] *)
Definition fix_missing_locations (n : node) : node :=
  fix_node n (Inh 1 0 1 0).

End FixLocations.

(** ** transformer.py *)

Module Transformer.

(** [ast.arguments(posonlyargs=[], args=[], kwonlyargs=[], kw_defaults=[],
    defaults=[])]: no parameter of any kind. *)
Definition no_arguments : node := Arguments [] [] None [] [] None [].

(** A node built without location attributes. *)
Definition unlocated : location := Loc None None None None.

(** [VariableToFunctionTransformer.visit_Assign]; the state is
    [converted_count]. *)
Definition visit_Assign (variables_to_convert : gset string)
    (n : node) (converted_count : nat) : option (node * nat) :=
  match n with
  | Assign targets value loc =>
      if negb (bool_decide (col_offset loc = Some 0)) then
        Some (n, converted_count)
      else if negb (length targets =? 1) then Some (n, converted_count)
      else
        match targets with
        | Name id _ _ :: _ =>
            if bool_decide (id ∈ variables_to_convert) then
              let func_node :=
                FunctionDef id no_arguments [Return (Some value) unlocated]
                  [] None
                  (Loc (Ast.lineno loc) (col_offset loc) None None) in
              Some (func_node, S converted_count)
            else Some (n, converted_count)
        | _ => Some (n, converted_count)
        end
  | _ => None
  end.

(** [transformer.visit(tree)] of [transform_file]. *)
Definition transform_tree (var_names : gset string) (tree : node) : node :=
  (NodeTransformer.visit (visit_Assign var_names) tree 0).1.

(** [create_function_node(variable)] *)
Definition create_function_node (variable : Analyzer.Variable_) : node :=
  FunctionDef (Analyzer.name variable) no_arguments
    [Return (Some (Analyzer.value_node variable)) unlocated] [] None
    (Loc (Analyzer.lineno variable) (Some 0) None None).

End Transformer.

(** ** usage_updater.py *)

Module UsageUpdater.

Record ImportInfo := mkImportInfo {
  original_name : string;
  alias : string;
  import_type : string;
  module_name : string
}.

Record UsageUpdate := mkUsageUpdate {
  lineno : option nat;
  col_offset : option nat;
  original : string;
  updated : string;
  import_info : ImportInfo
}.

Record StarImportWarning := mkStarImportWarning {
  warning_lineno : option nat;
  warning_module_name : string
}.

#[global] Instance ImportInfo_eq_dec : EqDecision ImportInfo.
Proof. solve_decision. Defined.

#[global] Instance StarImportWarning_eq_dec : EqDecision StarImportWarning.
Proof. solve_decision. Defined.

(** [Path.relative_to]: the components below [root], [None] for the
    [ValueError] of a path that is not under [root]. *)
Fixpoint relative_to (p root : path) : option path :=
  match root with
  | [] => Some p
  | r :: root' =>
      match p with
      | [] => None
      | c :: p' => if bool_decide (c = r) then relative_to p' root' else None
      end
  end.

(** The index of the last dot of a name, as [str.rfind] gives it. *)
Fixpoint rfind_dot (s : string) (i : nat) (last : option nat) : option nat :=
  match s with
  | EmptyString => last
  | String c rest =>
      rfind_dot rest (S i) (if bool_decide (c = "."%char) then Some i else last)
  end.

(** [Path.stem]: the name without its last suffix; a dot that starts or ends
    the name does not begin a suffix. *)
Definition stem (name : string) : string :=
  match rfind_dot name 0 None with
  | Some i =>
      if (0 <? i) && (i <? String.length name - 1) then slice name 0 i
      else name
  | None => name
  end.

(** [get_module_name_from_file], on resolved paths. *)
Definition get_module_name_from_file (target_path module_root_path : path)
  : option string :=
  match relative_to target_path module_root_path with
  | None => None
  | Some rel_path =>
      let parts := removelast rel_path ++ [stem (path_name rel_path)] in
      Some (String.concat "." parts)
  end.

(** [alias.asname if alias.asname else alias.name] *)
Definition imported_as (a : Ast.alias) : string :=
  match asname a with
  | Some n => if bool_decide (n = "") then alias_name a else n
  | None => alias_name a
  end.

(** The test of the [ImportFrom] branch:
    [node.module == target_module or
     (node.module and target_module.endswith(node.module))]. *)
Definition from_module_matches (module : option string)
    (target_module : string) : bool :=
  match module with
  | None => false
  | Some m =>
      bool_decide (m = target_module)
      || (negb (bool_decide (m = "")) && endswith target_module m)
  end.

(** The test of the [Import] branch. *)
Definition import_matches (name target_module : string) : bool :=
  bool_decide (name = target_module)
  || startswith target_module (name +:+ ".").

(** The two results of [analyze_imports] while they are being built. *)
Abbreviation import_state :=
  (gmap string ImportInfo * list StarImportWarning)%type.

Section AnalyzeImports.
Variable target_module : string.
Variable converted_vars : gset string.

(** One [alias] of a matching [from module import ...]. *)
Definition from_alias (module : string) (line : option nat)
    (st : import_state) (a : Ast.alias) : import_state :=
  let '(imports, star_warnings) := st in
  if bool_decide (alias_name a = "*") then
    (imports, star_warnings ++ [mkStarImportWarning line module])
  else if bool_decide (alias_name a ∈ converted_vars) then
    (<[imported_as a :=
         mkImportInfo (alias_name a) (imported_as a) "from" module]> imports,
     star_warnings)
  else st.

(** One [alias] of an [import ...]. *)
Definition import_alias (st : import_state) (a : Ast.alias) : import_state :=
  let '(imports, star_warnings) := st in
  if import_matches (alias_name a) target_module then
    (<["__module__" +:+ imported_as a :=
         mkImportInfo (alias_name a) (imported_as a) "direct" (alias_name a)]>
       imports,
     star_warnings)
  else st.

(** The body of the loop over [ast.walk(tree)], for one node. *)
Definition import_step (st : import_state) (n : node) : import_state :=
  match n with
  | ImportFrom module names _ loc =>
      if from_module_matches module target_module then
        foldl (from_alias (default "" module) (Ast.lineno loc)) st names
      else st
  | Import names _ => foldl import_alias st names
  | _ => st
  end.

(** [analyze_imports] on a parsed file. *)
Definition analyze_imports_tree (tree : node) : import_state :=
  foldl import_step (∅, []) (walk tree).

End AnalyzeImports.

(** The state of a [UsageTransformer] that changes: [self.updates]. *)
Section UsageTransformer.
Variable imports : gmap string ImportInfo.
Variable converted_vars : gset string.

Definition visit_Name (n : node) (updates : list UsageUpdate)
  : option (node * list UsageUpdate) :=
  match n with
  | Name id _ loc =>
      match imports !! id with
      | Some info =>
          if bool_decide (import_type info = "from") then
            Some (Call n [] [] (Loc (Ast.lineno loc) (Ast.col_offset loc) None None),
                  updates ++ [mkUsageUpdate (Ast.lineno loc)
                                (Ast.col_offset loc) id (id +:+ "()") info])
          else None
      | None => None
      end
  | _ => None
  end.

Definition visit_Attribute (n : node) (updates : list UsageUpdate)
  : option (node * list UsageUpdate) :=
  match n with
  | Attribute (Name base _ _) attr _ loc =>
      let module_key := "__module__" +:+ base in
      match imports !! module_key with
      | Some info =>
          if bool_decide (attr ∈ converted_vars) then
            Some (Call n [] [] (Loc (Ast.lineno loc) (Ast.col_offset loc) None None),
                  updates ++ [mkUsageUpdate (Ast.lineno loc)
                                (Ast.col_offset loc)
                                (base +:+ "." +:+ attr)
                                (base +:+ "." +:+ attr +:+ "()") info])
          else None
      | None => None
      end
  | _ => None
  end.

(** The dispatch of [visit] on the class of the node. *)
Definition usage_method (n : node) (updates : list UsageUpdate)
  : option (node * list UsageUpdate) :=
  match n with
  | Name _ _ _ => visit_Name n updates
  | Attribute _ _ _ _ => visit_Attribute n updates
  | _ => None
  end.

(** [transformer.visit(tree)] with [transformer.updates] afterwards. *)
Definition transform_usages (tree : node) : node * list UsageUpdate :=
  NodeTransformer.visit usage_method tree [].

End UsageTransformer.

End UsageUpdater.

(** ** Reading and writing files *)

Module IO.

(** What a run does to the filesystem, in order. *)
Inductive event :=
| Read (p : path)
| Write (p : path).

#[global] Instance event_eq_dec : EqDecision event.
Proof. solve_decision. Defined.

(** The world of a run: the filesystem, the trace of the files opened, the
    lines waiting on the standard input, and the paths that [open(p, "w")]
    refuses (a file or directory without write permission). *)
Record world := World {
  files : filesystem;
  events : list event;
  stdin : list string;
  unwritable : gset path
}.

(** The world with one more event in its trace. *)
Definition logged (e : event) (w : world) : world :=
  World (files w) (events w ++ [e]) (stdin w) (unwritable w).

(** A world that holds the files [fs], with an empty trace, nothing on the
    standard input and every path open to writing. *)
Definition on_files (fs : filesystem) : world := World fs [] [] ∅.

(** The exceptions of a run. [SystemExit] is not an [Exception]: an
    [except Exception] clause lets it through. *)
Inductive exn :=
| OSError
| ValueError
| SyntaxError
| RuntimeError
| TypeError
| KeyError
| EOFError
| SystemExit (code : nat).

Definition is_Exception (e : exn) : bool :=
  match e with
  | SystemExit _ => false
  | _ => true
  end.

Inductive outcome (A : Type) :=
| Ok (a : A)
| Raise (e : exn).
Arguments Ok {A} a.
Arguments Raise {A} e.

Definition io (A : Type) : Type := world → outcome A * world.

Definition io_ret {A} (a : A) : io A := fun w => (Ok a, w).

Definition io_bind {A B} (m : io A) (k : A → io B) : io B :=
  fun w =>
    match m w with
    | (Ok a, w') => k a w'
    | (Raise e, w') => (Raise e, w')
    end.

Definition raise {A} (e : exn) : io A := fun w => (Raise e, w).

(** [try: body except Exception: handler] *)
Definition try_except {A} (body : io A) (handler : exn → io A) : io A :=
  fun w =>
    match body w with
    | (Raise e, w') =>
        if is_Exception e then handler e w' else (Raise e, w')
    | r => r
    end.

Definition sys_exit {A} (code : nat) : io A := raise (SystemExit code).

(** A step that touches nothing: it returns or raises. *)
Definition lift {A} (o : outcome A) : io A := fun w => (o, w).

Definition get_files : io filesystem := fun w => (Ok (files w), w).

(** [with open(p) as f: f.read()] *)
Definition read_file (p : path) : io string :=
  fun w =>
    let w' := logged (Read p) w in
    match files w !! p with
    | Some (File (Some text)) => (Ok text, w')
    | _ => (Raise OSError, w')
    end.

(** Whether [open(p, "w")] raises: [p] is a directory, or it refuses to be
    written. *)
Definition refuses_write (w : world) (p : path) : bool :=
  bool_decide (p ∈ unwritable w)
  || match files w !! p with
     | Some Dir => true
     | _ => false
     end.

(** [with open(p, "w") as f: f.write(text)]. The attempt is an event of the
    trace also when [open] raises; the file is then as it was. (A write that
    fails after the file was opened is not told apart from one that is
    refused.) *)
Definition write_file (p : path) (text : string) : io unit :=
  fun w =>
    let w' := logged (Write p) w in
    if refuses_write w p then (Raise OSError, w')
    else
      (Ok tt,
       World (<[p := File (Some text)]> (files w')) (events w') (stdin w')
         (unwritable w')).

(** [input()]: the next line of the standard input, [EOFError] when there
    is none. *)
Definition input_line : io string :=
  fun w =>
    match stdin w with
    | [] => (Raise EOFError, w)
    | line :: rest =>
        (Ok line, World (files w) (events w) rest (unwritable w))
    end.

(** A [for] loop that carries [acc]. *)
Fixpoint for_each {A B} (body : B → A → io B) (acc : B) (l : list A) : io B :=
  match l with
  | [] => io_ret acc
  | x :: l' => io_bind (body acc x) (fun acc' => for_each body acc' l')
  end.

End IO.

Import IO.

#[global] Instance io_mret : MRet io := @io_ret.
#[global] Instance io_mbind : MBind io := fun A B k m => io_bind m k.

(** ** config.py *)

Module Config.

Set Warnings "-register-all".

(** A value as [json.load] returns it: [None], a [bool], a number (kept by
    its text), a [str], a [list], or a [dict] with its entries in the order
    of first insertion. *)
Inductive json :=
| JNull
| JBool (b : bool)
| JNumber (repr : string)
| JStr (s : string)
| JList (items : list json)
| JDict (entries : list (string * json)).

Definition is_str (s : string) (v : json) : bool :=
  match v with
  | JStr t => bool_decide (t = s)
  | _ => false
  end.

(** [t in s] on two texts *)
Fixpoint is_substring (t s : string) : bool :=
  startswith s t
  || match s with
     | EmptyString => false
     | String _ rest => is_substring t rest
     end.

Fixpoint get_entry (entries : list (string * json)) (key : string)
  : option json :=
  match entries with
  | [] => None
  | (k, v) :: rest =>
      if bool_decide (k = key) then Some v else get_entry rest key
  end.

Fixpoint set_entry (entries : list (string * json)) (key : string)
    (value : json) : list (string * json) :=
  match entries with
  | [] => [(key, value)]
  | (k, v) :: rest =>
      if bool_decide (k = key) then (key, value) :: rest
      else (k, v) :: set_entry rest key value
  end.

(** [key in config]: a key of a [dict], an item of a [list], a part of a
    [str]; any other value is not iterable. *)
Definition contains (config : json) (key : string) : outcome bool :=
  match config with
  | JDict entries => Ok (bool_decide (is_Some (get_entry entries key)))
  | JList items => Ok (existsb (is_str key) items)
  | JStr s => Ok (is_substring key s)
  | _ => Raise TypeError
  end.

(** [config[key]] with a text for [key] *)
Definition getitem (config : json) (key : string) : outcome json :=
  match config with
  | JDict entries =>
      match get_entry entries key with
      | Some v => Ok v
      | None => Raise KeyError
      end
  | _ => Raise TypeError
  end.

(** [config[key] = value] with a text for [key] *)
Definition setitem (config : json) (key : string) (value : json)
  : outcome json :=
  match config with
  | JDict entries => Ok (JDict (set_entry entries key value))
  | _ => Raise TypeError
  end.

(** [str.strip()] on an ASCII text: the white space is the characters 9 to
    13 and 28 to 32. *)
Definition is_space (c : ascii) : bool :=
  let n := nat_of_ascii c in
  ((9 <=? n) && (n <=? 13)) || ((28 <=? n) && (n <=? 32)).

Fixpoint lstrip (l : list ascii) : list ascii :=
  match l with
  | c :: rest => if is_space c then lstrip rest else l
  | [] => []
  end.

Definition strip (s : string) : string :=
  String.string_of_list_ascii
    (rev (lstrip (rev (lstrip (String.list_ascii_of_string s))))).

(** [if pattern_override:] *)
Definition given (pattern_override : option string) : option string :=
  match pattern_override with
  | Some override => if bool_decide (override = "") then None else Some override
  | None => None
  end.

Section Store.

(** [Path.home()] *)
Variable home : path.

(** [json.load], [None] for a [JSONDecodeError], and [json.dump] with
    [indent=2]: the host's. *)
Variable json_load : string → option json.
Variable json_dump : json → string.

(** [fnmatch.fnmatch] on two texts: the host's. *)
Variable fnmatch : string → string → bool.

Definition CONFIG_DIR : path := home ++ [".config"; "rewrite"].
Definition CONFIG_FILE : path := CONFIG_DIR ++ ["config.json"].

(** [load_config]: a store that is missing, cannot be read or does not
    decode gives the empty [dict]. *)
Definition load_config : io json :=
  fs ← get_files;
  if negb (path_exists fs CONFIG_FILE) then mret (JDict [])
  else
    fun w =>
      match read_file CONFIG_FILE w with
      | (Ok text, w') => (Ok (default (JDict []) (json_load text)), w')
      | (Raise _, w') => (Ok (JDict []), w')
      end.

(** [Path.mkdir(parents=True, exist_ok=True)]: the directories on the way
    that are missing are created, from the top; a file on the way, or a
    directory that cannot be created, is an [OSError], and what was created
    before stays. *)
Fixpoint make_dirs (above : path) (names : list string) : io unit :=
  match names with
  | [] => mret tt
  | dir_name :: rest =>
      let dir := above ++ [dir_name] in
      fun w =>
        match files w !! dir with
        | Some Dir => make_dirs dir rest w
        | Some (File _) => (Raise OSError, w)
        | None =>
            if bool_decide (dir ∈ unwritable w) then (Raise OSError, w)
            else
              make_dirs dir rest
                (World (<[dir := Dir]> (files w)) (events w) (stdin w)
                   (unwritable w))
        end
  end.

(** [save_config] *)
Definition save_config (config : json) : io unit :=
  make_dirs [] CONFIG_DIR;;
  write_file CONFIG_FILE (json_dump config).

(** [get_glob_pattern]. What it returns is the override, the line read from
    the standard input, or whatever value the store holds under the key. *)
Definition get_glob_pattern (pattern_override : option string) : io json :=
  match given pattern_override with
  | Some override =>
      config ← load_config;
      config ← lift (setitem config "glob_pattern" (JStr override));
      save_config config;;
      mret (JStr override)
  | None =>
      config ← load_config;
      saved ← lift (contains config "glob_pattern");
      if (saved : bool) then lift (getitem config "glob_pattern")
      else
        line ← input_line;
        let pattern := strip line in
        let pattern := if bool_decide (pattern = "") then "*.py" else pattern in
        config ← lift (setitem config "glob_pattern" (JStr pattern));
        save_config config;;
        mret (JStr pattern)
  end.

(** [validate_pattern]: [fnmatch] raises a [TypeError] on a pattern that is
    not a text. *)
Definition validate_pattern (filename : string) (pattern : json)
  : outcome bool :=
  match pattern with
  | JStr p => Ok (fnmatch filename p)
  | _ => Raise TypeError
  end.

End Store.

End Config.

(** ** The engine: the functions that read files, and cli.py *)

Module Engine.

Import Analyzer Transformer UsageUpdater.

(** The command-line arguments. *)
Record arguments := mkArgs {
  target_file : path;
  pattern : option string;
  apply : bool
}.

Section Run.

(** [ast.parse]: [None] is a [SyntaxError]. *)
Variable parse : string → option node.

(** [ast.unparse] *)
Variable unparse : node → string.

(** The version-control lookup (a [git] process) and the host's [fnmatch],
    [Path.home()], [json.load] and [json.dump]. What the reporting
    collaborator prints is not modelled. *)
Variable find_git_root : path → option path.
Variable fnmatch : string → string → bool.
Variable home : path.
Variable json_load : string → option Config.json.
Variable json_dump : Config.json → string.

(** analyzer.py, [analyze_file] *)
Definition analyze_file (file_path : path)
  : io (list Variable_ * list SkippedPattern) :=
  source ← read_file file_path;
  match parse source with
  | None => raise ValueError
  | Some tree => mret (analyze_tree source tree)
  end.

(** transformer.py, [transform_file] *)
Definition transform_file (file_path : path) (variables : list Variable_)
  : io string :=
  source ← read_file file_path;
  match parse source with
  | None => raise SyntaxError
  | Some tree =>
      let var_names : gset string := list_to_set (name <$> variables) in
      let new_tree := transform_tree var_names tree in
      let new_tree := FixLocations.fix_missing_locations new_tree in
      mret (unparse new_tree)
  end.

(** usage_updater.py, [analyze_imports] *)
Definition analyze_imports (file_path : path) (target_module : string)
    (converted_vars : gset string) : io import_state :=
  source ← read_file file_path;
  match parse source with
  | None => mret (∅, [])
  | Some tree =>
      mret (analyze_imports_tree target_module converted_vars tree)
  end.

(** [not target_module]: [None] or the empty text. *)
Definition no_module (target_module : option string) : bool :=
  match target_module with
  | None => true
  | Some m => bool_decide (m = "")
  end.

(** usage_updater.py, [update_usage_file] *)
Definition update_usage_file (file_path target_file module_root : path)
    (converted_vars : gset string)
  : io (option string * list UsageUpdate * list StarImportWarning) :=
  let target_module := get_module_name_from_file target_file module_root in
  if no_module target_module then mret (None, [], [])
  else
    let target_module := default "" target_module in
    source ← read_file file_path;
    '(imports, star_warnings) ←
      analyze_imports file_path target_module converted_vars;
    if bool_decide (imports = ∅) && bool_decide (star_warnings = []) then
      mret (None, [], [])
    else
      match parse source with
      | None => mret (None, [], star_warnings)
      | Some tree =>
          let '(new_tree, updates) :=
            transform_usages imports converted_vars tree in
          let new_tree := FixLocations.fix_missing_locations new_tree in
          if bool_decide (updates = []) then mret (None, [], star_warnings)
          else mret (Some (unparse new_tree), updates, star_warnings)
      end.

(** scanner.py, [find_python_files]: [rglob("*.py")] yields every entry
    below the root whose name ends in [.py], in an order the host does not
    fix (here the order of the keys of the map); an entry with an excluded
    directory name among its ancestors is dropped. *)
Definition exclude_dirs : gset string :=
  {[ "__pycache__"; ".git"; ".venv"; "venv"; "node_modules";
     ".pytest_cache" ]}.

Definition below (module_root p : path) : bool :=
  match relative_to p module_root with
  | Some (_ :: _) => true
  | _ => false
  end.

Definition excluded (p : path) : bool :=
  existsb (fun dir_name => bool_decide (dir_name ∈ exclude_dirs))
    (removelast p).

Definition find_python_files (fs : filesystem) (module_root : path)
  : list path :=
  filter (fun p => below module_root p
                   ∧ endswith (path_name p) ".py"
                   ∧ excluded p = false)
    (map fst (map_to_list fs)).

(** scanner.py, [scan_module]. The loop of [find_module_root] always ends
    (see [find_module_root_returns]); the [RuntimeError] stands for the
    fuel of the model running out. *)
Definition scan_module (target_path : path) : io (path * list path) :=
  fs ← get_files;
  match Scanner.find_module_root fs (find_git_root (parent target_path))
          target_path with
  | None => raise RuntimeError
  | Some module_root => mret (module_root, find_python_files fs module_root)
  end.

(** [files_to_update[py_file] = new_source] on a [dict] that keeps the
    order of first insertion. *)
Fixpoint dict_set (d : list (path * string)) (k : path) (v : string)
  : list (path * string) :=
  match d with
  | [] => [(k, v)]
  | (k', v') :: d' =>
      if bool_decide (k' = k) then (k, v) :: d'
      else (k', v') :: dict_set d' k v
  end.

(** The body of [for py_file in python_files]; it carries
    [files_to_update] and [star_warnings]. *)
Definition usage_loop_body (target : path) (module_root : path)
    (var_names : gset string)
    (acc : list (path * string) * list StarImportWarning) (py_file : path)
  : io (list (path * string) * list StarImportWarning) :=
  let '(files_to_update, star_warnings) := acc in
  if bool_decide (py_file = target) then mret acc
  else
    '(new_source, updates, warnings) ←
      update_usage_file py_file target module_root var_names;
    let files_to_update :=
      match new_source with
      | Some text =>
          if bool_decide (text = "") then files_to_update
          else dict_set files_to_update py_file text
      | None => files_to_update
      end in
    let star_warnings :=
      star_warnings ++ mjoin (replicate (length warnings) warnings) in
    mret (files_to_update, star_warnings).

(** The [try] block of [cli]. *)
Definition run (args : arguments) : io unit :=
  let target := target_file args in
  '(variables, skipped) ← analyze_file target;
  if bool_decide (variables = []) && bool_decide (skipped = []) then
    sys_exit 0
  else
    '(module_root, python_files) ← scan_module target;
    let var_names : gset string := list_to_set (name <$> variables) in
    '(files_to_update, star_warnings) ←
      for_each (usage_loop_body target module_root var_names) ([], [])
        python_files;
    if apply args then
      transformed_source ← transform_file target variables;
      write_file target transformed_source;;
      for_each (fun _ '(file_path, new_source) =>
                  write_file file_path new_source) tt files_to_update
    else mret tt.

(** The [try] block with its [except Exception] clause. *)
Definition try_block (args : arguments) : io unit :=
  try_except (run args) (fun _ => sys_exit 1).

(** cli.py, [cli]. [command_line] is what [parser.parse_args()] makes of the
    command line: the arguments, or the exit of the host's parser (status 2
    on a command line it refuses, 0 after [--help]). Then the checks on the
    target, the pattern of config.py and its gate, and the [try] block. *)
Definition cli (command_line : outcome arguments) : io unit :=
  args ← lift command_line;
  let target := target_file args in
  fs ← get_files;
  if negb (path_exists fs target) then sys_exit 1
  else if negb (path_is_file fs target) then sys_exit 1
  else
    pattern ← Config.get_glob_pattern home json_load json_dump (pattern args);
    let filename := path_name target in
    matches ← lift (Config.validate_pattern fnmatch filename pattern);
    if negb matches then sys_exit 1
    else try_block args.

End Run.

End Engine.

(** ** A rendering of the fragment used in the examples

    [py_unparse] follows the host's [ast.unparse] (CPython 3.11 and later)
    on modules made of assignments, function definitions with plain
    parameter names, [return], [import], [from ... import] and expression
    statements, over names, constants, attribute accesses, calls without
    keywords and tuples; text is ASCII. Outside this fragment (and for a body
    that starts with a docstring) it answers [None]. *)

Module Unparse.

Definition hex_digit (n : nat) : ascii :=
  ascii_of_nat (if n <? 10 then 48 + n else 87 + n).

(** One character of [repr(str)] inside the quotes [q]. *)
Definition repr_char (q c : ascii) : string :=
  let n := nat_of_ascii c in
  if bool_decide (c = "\"%char) then "\\"
  else if bool_decide (c = q) then String "\"%char (String c "")
  else if n =? 9 then "\t"
  else if n =? 10 then "\n"
  else if n =? 13 then "\r"
  else if (n <? 32) || (n =? 127) then
    "\x" +:+ String (hex_digit (n / 16)) (String (hex_digit (n mod 16)) "")
  else String c "".

Fixpoint repr_chars (q : ascii) (s : string) : string :=
  match s with
  | EmptyString => ""
  | String c rest => repr_char q c +:+ repr_chars q rest
  end.

Fixpoint contains_char (c : ascii) (s : string) : bool :=
  match s with
  | EmptyString => false
  | String c' rest => bool_decide (c' = c) || contains_char c rest
  end.

(** [repr] of a text: single quotes, unless the text has a single quote and
    no double quote. *)
Definition repr_str (s : string) : string :=
  let q := if contains_char "'"%char s && negb (contains_char "034"%char s)
           then "034"%char else "'"%char in
  String q (repr_chars q s) +:+ String q "".

Definition repr_constant (c : constant) : string :=
  match c with
  | CNone => "None"
  | CBool true => "True"
  | CBool false => "False"
  | CInt n => pretty n
  | CStr s => repr_str s
  end.

Definition is_int_constant (n : node) : bool :=
  match n with
  | Constant (CInt _) _ | Constant (CBool _) _ => true
  | _ => false
  end.

(** [items_view]: a one-element tuple keeps its comma. *)
Definition items_view (items : list string) : string :=
  match items with
  | [item] => item +:+ ","
  | _ => String.concat ", " items
  end.

(** An expression. [bare] says that a tuple needs no parentheses here, which
    holds for the targets of an assignment only. *)
Fixpoint unparse_expr (bare : bool) (n : node) {struct n} : option string :=
  match n with
  | Name id _ _ => Some id
  | Constant value _ => Some (repr_constant value)
  | Attribute value attr _ _ =>
      v ← unparse_expr false value;
      Some (v +:+ (if is_int_constant value then " " else "") +:+ "." +:+ attr)
  | Call func args [] _ =>
      f ← unparse_expr false func;
      a ← mapM (unparse_expr false) args;
      Some (f +:+ "(" +:+ String.concat ", " a +:+ ")")
  | Tuple elts _ _ =>
      e ← mapM (unparse_expr false) elts;
      Some (if bare && negb (bool_decide (elts = []))
            then items_view e
            else "(" +:+ items_view e +:+ ")")
  | _ => None
  end.

Definition unparse_alias (a : Ast.alias) : string :=
  match asname a with
  | Some n => alias_name a +:+ " as " +:+ n
  | None => alias_name a
  end.

Definition unparse_arg (n : node) : option string :=
  match n with
  | Arg arg None _ => Some arg
  | _ => None
  end.

Definition unparse_arguments (n : node) : option string :=
  match n with
  | Arguments [] args None [] [] None [] =>
      a ← mapM unparse_arg args;
      Some (String.concat ", " a)
  | _ => None
  end.

Fixpoint spaces (n : nat) : string :=
  match n with
  | 0 => ""
  | S n' => " " +:+ spaces n'
  end.

Definition is_docstring (body : list node) : bool :=
  match body with
  | Expr (Constant (CStr _) _) _ :: _ => true
  | _ => false
  end.

Definition newline : string := String "010"%char "".

(** A statement at nesting depth [indent]: [fill] starts a new line; a
    function definition leaves one more line empty before it. *)
Fixpoint unparse_stmt (indent : nat) (n : node) {struct n} : option string :=
  let fill := newline +:+ spaces (4 * indent) in
  match n with
  | Assign targets value _ =>
      t ← mapM (unparse_expr true) targets;
      v ← unparse_expr false value;
      Some (fill +:+ String.concat "" ((fun x => x +:+ " = ") <$> t) +:+ v)
  | FunctionDef name args body [] None _ =>
      a ← unparse_arguments args;
      b ← mapM (unparse_stmt (S indent)) body;
      if is_docstring body then None
      else Some (newline +:+ fill +:+ "def " +:+ name +:+ "(" +:+ a +:+ "):"
                 +:+ String.concat "" b)
  | Return None _ => Some (fill +:+ "return")
  | Return (Some value) _ =>
      v ← unparse_expr false value;
      Some (fill +:+ "return " +:+ v)
  | Import names _ =>
      Some (fill +:+ "import " +:+ String.concat ", " (unparse_alias <$> names))
  | ImportFrom module names level _ =>
      Some (fill +:+ "from " +:+ String.concat "" (replicate level ".")
            +:+ default "" module +:+ " import "
            +:+ String.concat ", " (unparse_alias <$> names))
  | Expr value _ =>
      v ← unparse_expr false value;
      Some (fill +:+ v)
  | _ => None
  end.

(** Nothing has been written when the first statement starts, so its line
    breaks are not written. *)
Fixpoint drop_newlines (s : string) : string :=
  match s with
  | String c rest => if is_LF c then drop_newlines rest else s
  | EmptyString => s
  end.

Definition py_unparse (tree : node) : option string :=
  match tree with
  | Module body =>
      b ← mapM (unparse_stmt 0) body;
      if is_docstring body then None
      else Some (drop_newlines (String.concat "" b))
  | _ => None
  end.

(** The renderer handed to the engine in the examples. *)
Definition unparse (tree : node) : string := default "" (py_unparse tree).

End Unparse.

(** ** The target grammar of the host

    The host parser accepts as the target of an assignment a name, an
    attribute access, a subscript, a starred target, or a tuple or list of
    targets; for a call it raises [SyntaxError] ("cannot assign to function
    call"). A text rendered from a tree with any other target does not
    parse. *)
Fixpoint assignable (n : node) : bool :=
  match n with
  | Name _ _ _ => true
  | Attribute _ _ _ _ => true
  | Tuple elts _ _ => forallb assignable elts
  | Other kind elts _ =>
      bool_decide (kind = "Subscript") || bool_decide (kind = "Starred")
      || (bool_decide (kind = "List") && forallb assignable elts)
  | _ => false
  end.

Definition targets_assignable (n : node) : bool :=
  match n with
  | Assign targets _ _ => forallb assignable targets
  | _ => true
  end.

(** The claim about [from] imports, in the words of the specification: the
    stated module is the target module, or the target module name is a
    dotted suffix of the stated module name. *)
Definition spec_from_module_matches (module : option string)
    (target_module : string) : bool :=
  match module with
  | None => false
  | Some m =>
      bool_decide (m = target_module)
      || endswith m ("." +:+ target_module)
  end.

(** ** Example files

    Each text is paired with the tree the host parser gives for it. *)

Module Examples.

Import Analyzer Transformer UsageUpdater Engine.

Definition lines (l : list string) : string :=
  String.concat Unparse.newline l.

Definition quoted (s : string) : string :=
  String "034"%char s +:+ String "034"%char "".

(** The parser on the texts of a table; any other text is refused. *)
Definition parse_table (table : list (string * node)) (text : string)
  : option node :=
  (fun found => found.2.2) <$> list_find (fun entry => entry.1 = text) table.

Definition no_git_root (dir : path) : option path := None.
Definition fnmatch_py (filename pattern : string) : bool :=
  bool_decide (pattern = "*.py") && endswith filename ".py".

(** The home directory and the pattern store of the examples: the store
    holds the pattern [*.py], as [json.dump] writes it. *)
Definition home : path := ["home"; "user"].
Definition store : path := Config.CONFIG_FILE home.
Definition store_text : string :=
  lines ["{"; "  " +:+ quoted "glob_pattern" +:+ ": " +:+ quoted "*.py"; "}"].

Definition example_json_load (text : string) : option Config.json :=
  if bool_decide (text = store_text)
  then Some (Config.JDict [("glob_pattern", Config.JStr "*.py")])
  else None.

Definition example_json_dump (config : Config.json) : string :=
  match config with
  | Config.JDict [(key, Config.JStr value)] =>
      lines ["{"; "  " +:+ quoted key +:+ ": " +:+ quoted value; "}"]
  | _ => "{}"
  end.

(** [x = 1; y = 2] *)
Definition semicolon_text : string := "x = 1; y = 2".
Definition semicolon_tree : node :=
  Module [
    Assign [Name "x" Store (parsed_at 1 0 1 1)]
      (Constant (CInt 1) (parsed_at 1 4 1 5)) (parsed_at 1 0 1 5);
    Assign [Name "y" Store (parsed_at 1 7 1 8)]
      (Constant (CInt 2) (parsed_at 1 11 1 12)) (parsed_at 1 7 1 12)].

(** [x = 1; y = 2] followed by [y = 3] on the next line *)
Definition shadowed_text : string := lines ["x = 1; y = 2"; "y = 3"].
Definition shadowed_tree : node :=
  Module [
    Assign [Name "x" Store (parsed_at 1 0 1 1)]
      (Constant (CInt 1) (parsed_at 1 4 1 5)) (parsed_at 1 0 1 5);
    Assign [Name "y" Store (parsed_at 1 7 1 8)]
      (Constant (CInt 2) (parsed_at 1 11 1 12)) (parsed_at 1 7 1 12);
    Assign [Name "y" Store (parsed_at 2 0 2 1)]
      (Constant (CInt 3) (parsed_at 2 4 2 5)) (parsed_at 2 0 2 5)].

(** [x = 1; x = 2], and the text the conversion writes for it *)
Definition twice_text : string := "x = 1; x = 2".
Definition twice_tree : node :=
  Module [
    Assign [Name "x" Store (parsed_at 1 0 1 1)]
      (Constant (CInt 1) (parsed_at 1 4 1 5)) (parsed_at 1 0 1 5);
    Assign [Name "x" Store (parsed_at 1 7 1 8)]
      (Constant (CInt 2) (parsed_at 1 11 1 12)) (parsed_at 1 7 1 12)].
Definition twice_converted_text : string :=
  lines ["def x():"; "    return 1"; "x = 2"].
Definition twice_converted_tree : node :=
  Module [
    FunctionDef "x" (Arguments [] [] None [] [] None [])
      [Return (Some (Constant (CInt 1) (parsed_at 2 11 2 12)))
         (parsed_at 2 4 2 12)]
      [] None (parsed_at 1 0 2 12);
    Assign [Name "x" Store (parsed_at 3 0 3 1)]
      (Constant (CInt 2) (parsed_at 3 4 3 5)) (parsed_at 3 0 3 5)].

(** [a = b = "x"], with double quotes *)
Definition chained_text : string := "a = b = " +:+ quoted "x".
Definition chained_tree : node :=
  Module [
    Assign [Name "a" Store (parsed_at 1 0 1 1);
            Name "b" Store (parsed_at 1 4 1 5)]
      (Constant (CStr "x") (parsed_at 1 8 1 11)) (parsed_at 1 0 1 11)].

(** [a, b = compute()] *)
Definition unpacking_text : string := "a, b = compute()".
Definition unpacking_tree_body : list node :=
  [Assign [Tuple [Name "a" Store (parsed_at 1 0 1 1);
                  Name "b" Store (parsed_at 1 3 1 4)] Store
             (parsed_at 1 0 1 4)]
     (Call (Name "compute" Load (parsed_at 1 7 1 14)) [] []
        (parsed_at 1 7 1 16))
     (parsed_at 1 0 1 16)].
Definition unpacking_tree : node := Module unpacking_tree_body.

(** The target of scenario A: [schema_name = "user_schema"] *)
Definition config_text : string := "schema_name = " +:+ quoted "user_schema".
Definition config_tree : node :=
  Module [
    Assign [Name "schema_name" Store (parsed_at 1 0 1 11)]
      (Constant (CStr "user_schema") (parsed_at 1 14 1 27))
      (parsed_at 1 0 1 27)].

(** A consuming file that reads the name (scenario B) *)
Definition reader_text : string :=
  lines ["from config import schema_name"; "print(schema_name)"].
Definition reader_tree : node :=
  Module [
    ImportFrom (Some "config") [Alias "schema_name" None] 0
      (parsed_at 1 0 1 30);
    Expr (Call (Name "print" Load (parsed_at 2 0 2 5))
            [Name "schema_name" Load (parsed_at 2 6 2 17)] []
            (parsed_at 2 0 2 18))
      (parsed_at 2 0 2 18)].

(** A consuming file that assigns to the imported name *)
Definition rebinding_text : string :=
  lines ["from config import schema_name"; "schema_name = 1"].
Definition rebinding_tree : node :=
  Module [
    ImportFrom (Some "config") [Alias "schema_name" None] 0
      (parsed_at 1 0 1 30);
    Assign [Name "schema_name" Store (parsed_at 2 0 2 11)]
      (Constant (CInt 1) (parsed_at 2 14 2 15)) (parsed_at 2 0 2 15)].

(** A consuming file with a wildcard import (scenario D) *)
Definition wildcard_text : string :=
  lines ["from config import *"; "print(schema_name)"].
Definition wildcard_tree : node :=
  Module [
    ImportFrom (Some "config") [Alias "*" None] 0 (parsed_at 1 0 1 20);
    Expr (Call (Name "print" Load (parsed_at 2 0 2 5))
            [Name "schema_name" Load (parsed_at 2 6 2 17)] []
            (parsed_at 2 0 2 18))
      (parsed_at 2 0 2 18)].

(** A consuming file that imports a dotted path *)
Definition dotted_text : string :=
  lines ["import pkg.sub"; "print(pkg.sub.name)"].
Definition dotted_usage : node :=
  Attribute
    (Attribute (Name "pkg" Load (parsed_at 2 6 2 9)) "sub" Load
       (parsed_at 2 6 2 13))
    "name" Load (parsed_at 2 6 2 18).
Definition dotted_tree : node :=
  Module [
    Import [Alias "pkg.sub" None] (parsed_at 1 0 1 14);
    Expr (Call (Name "print" Load (parsed_at 2 0 2 5)) [dotted_usage] []
            (parsed_at 2 0 2 19))
      (parsed_at 2 0 2 19)].

(** A consuming file that imports the dotted path and the package above
    it *)
Definition package_text : string :=
  lines ["import pkg.sub"; "import pkg"; "print(pkg.sub.name)"].
Definition package_tree : node :=
  Module [
    Import [Alias "pkg.sub" None] (parsed_at 1 0 1 14);
    Import [Alias "pkg" None] (parsed_at 2 0 2 10);
    Expr (Call (Name "print" Load (parsed_at 3 0 3 5))
            [Attribute
               (Attribute (Name "pkg" Load (parsed_at 3 6 3 9)) "sub" Load
                  (parsed_at 3 6 3 13))
               "name" Load (parsed_at 3 6 3 18)]
            [] (parsed_at 3 0 3 19))
      (parsed_at 3 0 3 19)].

(** [if True:] continued by a backslash, with [x = 2] on the next line: the
    assignment is inside the [if] and starts at column 0 of line 2 *)
Definition continued_text : string :=
  lines ["if True: " +:+ String "092"%char ""; "x = 2"].
Definition continued_tree : node :=
  Module [
    Other "If"
      [Constant (CBool true) (parsed_at 1 3 1 7);
       Assign [Name "x" Store (parsed_at 2 0 2 1)]
         (Constant (CInt 2) (parsed_at 2 4 2 5)) (parsed_at 2 0 2 5)]
      (Some (parsed_at 1 0 2 5))].

Definition example_parse : string → option node :=
  parse_table [
    (semicolon_text, semicolon_tree);
    (shadowed_text, shadowed_tree);
    (twice_text, twice_tree);
    (twice_converted_text, twice_converted_tree);
    (chained_text, chained_tree);
    (unpacking_text, unpacking_tree);
    (config_text, config_tree);
    (reader_text, reader_tree);
    (rebinding_text, rebinding_tree);
    (wildcard_text, wildcard_tree);
    (dotted_text, dotted_tree);
    (continued_text, continued_tree);
    (package_text, package_tree)].

(** A project directory with the target [config.py] and one other file. *)
Definition config_py : path := ["proj"; "config.py"].
Definition app_py : path := ["proj"; "app.py"].

Definition project (target_text app_text : string) : world :=
  on_files (<[config_py := File (Some target_text)]>
              (<[app_py := File (Some app_text)]>
                 (<[store := File (Some store_text)]> ∅))).

(** A package [pkg] with a sub-directory [sub] that holds the target. *)
Definition nested_target : path := ["repo"; "pkg"; "sub"; "fields.py"].
Definition nested_fs : filesystem :=
  <[ ["repo"; "pkg"; "__init__.py"] := File (Some "") ]>
    (<[ ["repo"; "pkg"; "helpers.py"] := File (Some "") ]>
       (<[ nested_target := File (Some "") ]> ∅)).

(** The engine on the example parser, renderer and collaborators. *)
Definition example_cli (args : arguments) : io unit :=
  cli example_parse Unparse.unparse no_git_root fnmatch_py home
    example_json_load example_json_dump (Ok args).

End Examples.

(** ** Notions used in the statements *)

Module Notions.

Import UsageUpdater.

(** A location as the parser records it: all four attributes. *)
Definition complete (l : location) : bool :=
  bool_decide (is_Some (Ast.lineno l)) && bool_decide (is_Some (Ast.col_offset l))
  && bool_decide (is_Some (end_lineno l))
  && bool_decide (is_Some (end_col_offset l)).

(** A tree as the parser leaves it: every node that has location attributes
    has all of them. *)
Definition fully_located (tree : node) : bool :=
  forallb (fun n => from_option complete true (node_loc n)) (walk tree).

(** An update that went through a binding of the alias table: a bare name
    under its own key, or [base.attr] under the key of the module [base]. *)
Definition resolved_by (imports : gmap string ImportInfo)
    (converted_vars : gset string) (u : UsageUpdate) : Prop :=
  (import_type (import_info u) = "from"
   ∧ imports !! original u = Some (import_info u))
  ∨ (∃ base attr,
        original u = base +:+ "." +:+ attr
        ∧ imports !! ("__module__" +:+ base) = Some (import_info u)
        ∧ attr ∈ converted_vars).

(** A binding that an import statement of the tree states by name: an alias
    other than [*] of a [from] import, or an alias of an [import]. *)
Definition explicit_binding (converted_vars : gset string) (tree : node)
    (key : string) (info : ImportInfo) : Prop :=
  (∃ module names level loc a,
      subnode (ImportFrom module names level loc) tree
      ∧ a ∈ names ∧ alias_name a ≠ "*" ∧ alias_name a ∈ converted_vars
      ∧ key = imported_as a
      ∧ info = mkImportInfo (alias_name a) (imported_as a) "from"
                 (default "" module))
  ∨ (∃ names loc a,
        subnode (Import names loc) tree
        ∧ a ∈ names
        ∧ key = "__module__" +:+ imported_as a
        ∧ info = mkImportInfo (alias_name a) (imported_as a) "direct"
                   (alias_name a)).

(** A text without a dot, as an identifier is. *)
Definition dotless (s : string) : bool :=
  forallb (fun c => negb (bool_decide (c = "."%char)))
    (String.list_ascii_of_string s).

(** The names that the import statements of a tree bind are identifiers, as
    the parser leaves them: the [as] names of both kinds of statement, and
    the names that a [from] import lists. *)
Definition plain_alias_names (tree : node) : bool :=
  forallb
    (fun n =>
       match n with
       | Import names _ =>
           forallb (fun a => from_option dotless true (asname a)) names
       | ImportFrom _ names _ _ =>
           forallb (fun a => dotless (alias_name a)
                             && from_option dotless true (asname a)) names
       | _ => true
       end)
    (walk tree).

(** The expression [p1.p2. ... .pn], whatever its contexts and locations. *)
Inductive dotted_access : list string → node → Prop :=
| dotted_name id ctx loc : dotted_access [id] (Name id ctx loc)
| dotted_attribute parts value attr ctx loc :
    dotted_access parts value →
    dotted_access (parts ++ [attr]) (Attribute value attr ctx loc).

Definition is_read (e : event) : bool :=
  match e with Read _ => true | Write _ => false end.

Definition is_write (e : event) : bool :=
  match e with Write _ => true | Read _ => false end.

(** A computation that only reads: it leaves the files as they are and adds
    only [Read] events. *)
Definition read_only {A} (m : io A) : Prop :=
  ∀ w, files (m w).2 = files w
       ∧ ∃ reads, events (m w).2 = events w ++ reads
                  ∧ Forall (λ e, is_read e = true) reads.

(** A computation that only writes: it adds only [Write] events, and a
    path whose entry it changes is one that it has opened for writing. *)
Definition write_only {A} (m : io A) : Prop :=
  ∀ w, ∃ writes,
    events (m w).2 = events w ++ writes
    ∧ Forall (λ e, is_write e = true) writes
    ∧ ∀ p, files (m w).2 !! p ≠ files w !! p → Write p ∈ writes.

(** A computation whose writes all come after its reads. *)
Definition writes_last {A} (m : io A) : Prop :=
  ∀ w, ∃ reads writes,
    events (m w).2 = events w ++ reads ++ writes
    ∧ Forall (λ e, is_read e = true) reads
    ∧ Forall (λ e, is_write e = true) writes
    ∧ ∀ p, files (m w).2 !! p ≠ files w !! p → Write p ∈ writes.

(** The fatal errors on the target: it is missing, it is not a file that
    can be read, or its text does not parse. *)
Definition target_fatal (parse : string → option node) (fs : filesystem)
    (target : path) : Prop :=
  match fs !! target with
  | Some (File (Some text)) => parse text = None
  | _ => True
  end.

End Notions.

(** ** Notions used in the statements on whole runs *)

Module RunNotions.

Import Analyzer UsageUpdater Engine.

(** A computation whose outcome depends on the files, not on the trace. *)
Definition reads_files {A} (m : io A) : Prop :=
  ∀ w1 w2, files w1 = files w2 → (m w1).1 = (m w2).1.

(** A computation that touches nothing but the pattern store: the files it
    opens are the store, and the entries it changes are the store and the
    directories above it. *)
Definition store_only (store : path) {A} (m : io A) : Prop :=
  ∀ w, (∃ accesses,
           events (m w).2 = events w ++ accesses
           ∧ Forall (λ e, e = Read store ∨ e = Write store) accesses)
       ∧ ∀ p, ¬ p `prefix_of` store → files (m w).2 !! p = files w !! p.

Section Run.
Variable parse : string → option node.
Variable unparse : node → string.
Variable find_git_root : path → option path.

(** The files [fs] let the analysis of a run on [target] go through: the
    target is read and parses, the module root is found, and every other
    Python file below it is read (as soon as the target has a module name
    there, without which [update_usage_file] opens no file). *)
Definition analysed (fs : filesystem) (target : path) : Prop :=
  ∃ text tree root,
    fs !! target = Some (File (Some text))
    ∧ parse text = Some tree
    ∧ Scanner.find_module_root fs (find_git_root (parent target)) target
      = Some root
    ∧ (no_module (get_module_name_from_file target root) = false →
       ∀ p, p ∈ find_python_files fs root → p ≠ target →
            ∃ text', fs !! p = Some (File (Some text'))).

(** What [update_usage_file] returns on the files [fs]. *)
Definition usage_result (fs : filesystem) (target module_root : path)
    (var_names : gset string) (py_file : path)
  : outcome (option string * list UsageUpdate * list StarImportWarning) :=
  (update_usage_file parse unparse py_file target module_root var_names
     (on_files fs)).1.

(** The text that the loop of [cli] keeps for [py_file]: the one
    [update_usage_file] returns, when it is there and not empty
    ([if new_source:]). *)
Definition usage_text (fs : filesystem) (target module_root : path)
    (var_names : gset string) (py_file : path) : option string :=
  match usage_result fs target module_root var_names py_file with
  | Ok (Some text, _, _) => if bool_decide (text = "") then None else Some text
  | _ => None
  end.

(** What is left of the [try] block once the target has been analysed and
    the module root found: the two loops of [run]. *)
Definition after_analysis (args : arguments) (variables : list Variable_)
    (module_root : path) (python_files : list path) : io unit :=
  let target := target_file args in
  let var_names : gset string := list_to_set (name <$> variables) in
  '(files_to_update, star_warnings) ←
    for_each (usage_loop_body parse unparse target module_root var_names)
      ([], []) python_files;
  if apply args then
    transformed_source ← transform_file parse unparse target variables;
    write_file target transformed_source;;
    for_each (fun _ '(file_path, new_source) =>
                write_file file_path new_source) tt files_to_update
  else mret tt.

End Run.

End RunNotions.

(** * Properties *)

(** ** The module root *)

Module ScannerFacts.

Import Scanner.

Lemma parent_shorter (p : path) :
  parent p ≠ p → length (parent p) < length p.
Proof.
  unfold parent. destruct p as [|c p'] using rev_ind; [done|].
  intros _. rewrite removelast_last, length_app. simpl. lia.
Qed.

(** The loop ends when it is given one iteration per component and one
    more. *)
Lemma climb_returns fs git_root fuel module_root current_dir :
  length current_dir < fuel →
  is_Some (climb fs git_root fuel module_root current_dir).
Proof.
  revert module_root current_dir.
  induction fuel as [|fuel IH]; intros module_root current_dir Hlen; [lia|].
  simpl. case_bool_decide as Hroot; [eauto|].
  case_bool_decide; [eauto|].
  destruct (path_exists _ _); simpl; [|eauto].
  apply IH. apply parent_shorter in Hroot. lia.
Qed.

(** [find_module_root] returns for every target. *)
Lemma find_module_root_returns fs git_root target_path :
  is_Some (find_module_root fs git_root target_path).
Proof. apply climb_returns. lia. Qed.

(** The returned directory and the directory at which the loop stopped: they
    are the same when the loop stops at its first test, and otherwise the
    returned one is a child of the other. *)
Lemma climb_lags fs git_root fuel module_root current_dir r s :
  climb fs git_root fuel module_root current_dir = Some r →
  stop_dir fs git_root fuel current_dir = Some s →
  (r = module_root ∧ s = current_dir) ∨ (parent r = s ∧ r ≠ s).
Proof.
  revert module_root current_dir.
  induction fuel as [|fuel IH]; intros module_root current_dir; [done|].
  simpl. case_bool_decide as Hroot; [naive_solver|].
  case_bool_decide; [naive_solver|].
  destruct (path_exists _ _); simpl; [|naive_solver].
  intros Hr Hs. destruct (IH _ _ Hr Hs) as [[-> ->]|?]; [|by right].
  right. split; [done|]. congruence.
Qed.

Lemma find_module_root_lags fs git_root target_path r s :
  find_module_root fs git_root target_path = Some r →
  climbing_stopped_at fs git_root target_path = Some s →
  r = s ∨ (parent r = s ∧ r ≠ s).
Proof.
  intros Hr Hs. destruct (climb_lags _ _ _ _ _ _ _ Hr Hs) as [[-> ->]|?]; eauto.
Qed.

(** C1. For the target [/repo/pkg/sub/fields.py], where [/repo/pkg] holds an
    [__init__.py] and [/repo] does not, the loop of [find_module_root] climbs
    once and stops at [/repo/pkg], the highest directory of the package
    chain, but the function returns [/repo/pkg/sub], one level below. *)
Theorem find_module_root_below_stop :
  find_module_root Examples.nested_fs None Examples.nested_target
    = Some ["repo"; "pkg"; "sub"]
  ∧ climbing_stopped_at Examples.nested_fs None Examples.nested_target
    = Some ["repo"; "pkg"].
Proof. split; vm_compute; reflexivity. Qed.

End ScannerFacts.

(** ** The syntax tree and the walk *)

Module AstFacts.

Lemma sum_list_append (l k : list nat) :
  sum_list (l ++ k) = sum_list l + sum_list k.
Proof. induction l; simpl; lia. Qed.

Lemma sum_sizes_option (o : option node) :
  sum_list (map node_size (option_list o)) = from_option node_size 0 o.
Proof. destruct o; simpl; lia. Qed.

Lemma sum_sizes_omap (l : list (option node)) :
  sum_list (map node_size (omap id l))
  = sum_list (map (from_option node_size 0) l).
Proof.
  induction l as [|[x|] l IH]; [done| |]; cbn [omap list_omap map sum_list from_option id];
    simpl in *; lia.
Qed.

(** A node counts for one, and the rest of its size is that of its
    children. *)
Lemma node_size_children (n : node) :
  node_size n = S (sum_list (map node_size (iter_child_nodes n))).
Proof.
  destruct n; simpl;
    rewrite ?map_app, ?sum_list_append, ?sum_sizes_option, ?sum_sizes_omap;
    simpl; lia.
Qed.

Lemma subnode_inv (d n : node) :
  subnode d n ↔ d = n ∨ ∃ c, c ∈ iter_child_nodes n ∧ subnode d c.
Proof.
  split.
  - intros H. destruct H; [by left | right; eauto].
  - intros [-> | (c & Hc & Hd)]; [constructor | econstructor; eauto].
Qed.

Lemma subnode_trans (a b c : node) : subnode a b → subnode b c → subnode a c.
Proof.
  intros Hab Hbc. induction Hbc; [done|]. econstructor; eauto.
Qed.

(** The walk yields the nodes below the nodes of the deque, and nothing
    else, once it has a step for every node. *)
Lemma walk_queue_complete (fuel : nat) (todo : list node) (d : node) :
  sum_list (map node_size todo) ≤ fuel →
  d ∈ walk_queue fuel todo ↔ ∃ t, t ∈ todo ∧ subnode d t.
Proof.
  revert todo. induction fuel as [|fuel IH]; intros todo Hfuel.
  - destruct todo as [|n rest].
    + simpl. split; [by intros ?%elem_of_nil | by intros (? & ?%elem_of_nil & _)].
    + simpl in Hfuel. rewrite (node_size_children n) in Hfuel. lia.
  - destruct todo as [|n rest]; simpl.
    + split; [by intros ?%elem_of_nil | by intros (? & ?%elem_of_nil & _)].
    + simpl in Hfuel. rewrite (node_size_children n) in Hfuel.
      rewrite elem_of_cons, IH
        by (rewrite map_app, sum_list_append; lia).
      split.
      * intros [-> | (t & [Ht|Ht]%elem_of_app & Hd)].
        -- exists n. split; [left | constructor].
        -- exists t. split; [by right | done].
        -- exists n. split; [left | econstructor; eauto].
      * intros (t & [->|Ht]%elem_of_cons & Hd).
        -- apply subnode_inv in Hd as [-> | (c & Hc & Hd)]; [by left|].
           right. exists c. split; [apply elem_of_app; by right | done].
        -- right. exists t. split; [apply elem_of_app; by left | done].
Qed.

(** [ast.walk] yields exactly the nodes of the tree. *)
Lemma elem_of_walk (tree d : node) : d ∈ walk tree ↔ subnode d tree.
Proof.
  unfold walk. rewrite walk_queue_complete by (simpl; lia).
  split.
  - by intros (t & ->%list_elem_of_singleton & Hd).
  - intros Hd. exists tree. split; [by apply list_elem_of_singleton | done].
Qed.

Lemma size_le_sum (c : node) (l : list node) :
  c ∈ l → node_size c ≤ sum_list (map node_size l).
Proof.
  induction 1; simpl; lia.
Qed.

(** Induction on a tree, with the property in hand for every child. *)
Lemma node_children_ind (P : node → Prop) :
  (∀ n, Forall P (iter_child_nodes n) → P n) → ∀ n, P n.
Proof.
  intros step n. remember (node_size n) as k eqn:Hk. revert n Hk.
  induction k as [k IH] using lt_wf_ind. intros n ->.
  apply step, Forall_forall. intros c Hc.
  apply (IH (node_size c)); [|done].
  rewrite (node_size_children n). apply size_le_sum in Hc. lia.
Qed.

End AstFacts.

(** ** The transformer of the host *)

Module VisitFacts.

Import AstFacts NodeTransformer.

Section State.
Context {St : Type}.
Variable method : node → St → option (node * St).

(** A relation between the state before and after a visit that holds across
    every method holds across every visit. *)
Variable Q : St → St → Prop.
Hypothesis Q_refl : ∀ st, Q st st.
Hypothesis Q_trans : ∀ a b c, Q a b → Q b c → Q a c.
Hypothesis Q_method : ∀ n st r, method n st = Some r → Q st r.2.

Lemma thread_state {A} (f : A → St → A * St) (l : list A) :
  Forall (λ x, ∀ st, Q st (f x st).2) l → ∀ st, Q st (thread f l st).2.
Proof.
  induction 1 as [|x l Hx _ IH]; intros st; simpl; [done|].
  specialize (Hx st). destruct (f x st) as [x' st1].
  specialize (IH st1). destruct (thread f l st1) as [l' st2]. simpl in *. eauto.
Qed.

Lemma thread_option_state {A} (f : A → St → A * St) (o : option A) :
  Forall (λ x, ∀ st, Q st (f x st).2) (option_list o) →
  ∀ st, Q st (thread_option f o st).2.
Proof.
  destruct o as [x|]; simpl; [|done].
  intros [Hx _]%Forall_cons st. specialize (Hx st).
  by destruct (f x st).
Qed.

Lemma Forall_omap_option {A} (P : A → Prop) (R : option A → Prop)
    (l : list (option A)) :
  (∀ o, Forall P (option_list o) → R o) →
  Forall P (omap id l) → Forall R l.
Proof.
  intros HR. induction l as [|[x|] l IH]; simpl; [done| |].
  - intros [Hx Hl]%Forall_cons. constructor; [|by apply IH].
    apply HR. by constructor.
  - intros Hl. constructor; [|by apply IH]. apply HR. constructor.
Qed.

Lemma visit_state (n : node) : ∀ st, Q st (visit method n st).2.
Proof.
  induction n as [n IH] using node_children_ind. intros st.
  destruct n; simpl in IH |- *;
    (destruct (method _ st) as [r|] eqn:Hm; [by eapply Q_method|]);
    repeat (rewrite Forall_cons in IH || rewrite Forall_app in IH);
    destruct_and?;
    repeat match goal with
    | H : Forall _ (omap id _) |- _ =>
        apply (Forall_omap_option _ _ _
                 (thread_option_state (visit method))) in H
    | H : Forall _ ?l |- context [thread (visit method) ?l ?s] =>
        let H' := fresh "Hq" in
        pose proof (thread_state (visit method) l H s) as H';
        destruct (thread (visit method) l s) as [? ?]; simpl in H'
    | H : Forall _ (option_list ?o) |- context [thread_option (visit method) ?o ?s] =>
        let H' := fresh "Hq" in
        pose proof (thread_option_state (visit method) o H s) as H';
        destruct (thread_option (visit method) o s) as [? ?]; simpl in H'
    | H : Forall _ ?l |- context [thread (thread_option (visit method)) ?l ?s] =>
        let H' := fresh "Hq" in
        pose proof (thread_state (thread_option (visit method)) l H s) as H';
        destruct (thread (thread_option (visit method)) l s) as [? ?]; simpl in H'
    | H : ∀ st, Q st (visit method ?x st).2 |- context [visit method ?x ?s] =>
        let H' := fresh "Hq" in
        pose proof (H s) as H';
        destruct (visit method x s) as [? ?]; simpl in H'
    end; simpl; eauto 10.
Qed.
End State.
End VisitFacts.

(** ** The classifier *)

Module AnalyzerFacts.

Import Analyzer Engine Examples.

(** What the classifier turns into a binding: an assignment node at column
    0 with one target, a name that passes the naming rule. *)
Lemma classify_variable_iff source n v :
  classify source n = Some (FoundVariable v) ↔
  ∃ id ctx name_loc value loc,
    n = Assign [Name id ctx name_loc] value loc
    ∧ col_offset loc = Some 0
    ∧ is_lowercase_snake_case id = true
    ∧ startswith id "_" = false
    ∧ v = mkVariable id (Ast.lineno loc) value
            (or_unknown (get_source_segment source value)).
Proof.
  split.
  - destruct n as [| targets value loc | | | | | | | | | | | | |]; try done.
    simpl. case_bool_decide as Hcol; [|done]. simpl.
    destruct (1 <? length targets) eqn:Hlen; [done|].
    apply Nat.ltb_ge in Hlen.
    destruct targets as [|target [|? ?]]; [done| |simpl in Hlen; lia].
    destruct target; try done.
    destruct (is_lowercase_snake_case id) eqn:Hname; [|done]. simpl.
    destruct (startswith id "_") eqn:Hprivate; [done|].
    intros [= <-]. eauto 10.
  - intros (id & ctx & name_loc & value & loc & -> & Hcol & Hname & Hpriv & ->).
    simpl. rewrite bool_decide_true by done. simpl.
    by rewrite Hname, Hpriv.
Qed.

(** The bindings of a file are those of the assignment nodes of its tree,
    at any depth. *)
Lemma analyze_tree_variables source tree v :
  v ∈ (analyze_tree source tree).1 ↔
  ∃ n, subnode n tree ∧ classify source n = Some (FoundVariable v).
Proof.
  unfold analyze_tree. simpl. rewrite list_elem_of_omap. split.
  - intros (f & (n & Hn & Hf)%list_elem_of_omap & Hv).
    destruct f; [|done]. injection Hv as ->.
    exists n. by rewrite <- AstFacts.elem_of_walk.
  - intros (n & Hn%AstFacts.elem_of_walk & Hf).
    exists (FoundVariable v). split; [|done].
    apply list_elem_of_omap. eauto.
Qed.

(** An assignment inside an [if], written at column 0 after a line
    continuation, is classified. *)
Example nested_assignment_classified :
  example_parse continued_text = Some continued_tree
  ∧ analyze_tree continued_text continued_tree
    = ([mkVariable "x" (Some 2) (Constant (CInt 2) (parsed_at 2 4 2 5)) "2"],
       []).
Proof. split; vm_compute; reflexivity. Qed.

(** C9. In [x = 1; y = 2] the statement [y = 2] is a statement of the module
    body, assigns to the single bare identifier [y], and [y] passes the
    naming rule; it starts at column 7, and [analyze_file] yields a binding
    for [x] only. *)
Theorem statement_after_semicolon_not_classified :
  let second :=
    Assign [Name "y" Store (parsed_at 1 7 1 8)]
      (Constant (CInt 2) (parsed_at 1 11 1 12)) (parsed_at 1 7 1 12) in
  example_parse semicolon_text = Some semicolon_tree
  ∧ (∃ first, semicolon_tree = Module [first; second])
  ∧ is_lowercase_snake_case "y" = true
  ∧ startswith "y" "_" = false
  ∧ (analyze_file example_parse config_py
       (project semicolon_text reader_text)).1
    = Ok ([mkVariable "x" (Some 1) (Constant (CInt 1) (parsed_at 1 4 1 5)) "1"],
          []).
Proof.
  repeat split; try (vm_compute; reflexivity).
  eexists. reflexivity.
Qed.

End AnalyzerFacts.

(** ** The declaration rewriter *)

Module TransformerFacts.

Import AstFacts NodeTransformer FixLocations Analyzer Transformer Engine.
Import Notions Examples.

(** A visited list field keeps its length, and the item at a position is the
    visit of the item that was there. *)
Lemma thread_lookup {A St} (f : A → St → A * St) (l : list A) (st : St)
    (i : nat) (x : A) :
  l !! i = Some x → ∃ st_i, (thread f l st).1 !! i = Some (f x st_i).1.
Proof.
  revert st i. induction l as [|y l IH]; intros st i; [done|].
  simpl. destruct i as [|i]; simpl.
  - intros [= ->]. exists st.
    destruct (f x st) as [x' st1]. by destruct (thread f l st1).
  - intros Hx. destruct (f y st) as [y' st1].
    destruct (IH st1 i Hx) as [st_i Hi]. exists st_i.
    by destruct (thread f l st1).
Qed.

Lemma thread_length {A St} (f : A → St → A * St) (l : list A) (st : St) :
  length (thread f l st).1 = length l.
Proof.
  revert st. induction l as [|y l IH]; intros st; [done|].
  simpl. destruct (f y st) as [y' st1]. specialize (IH st1).
  destruct (thread f l st1). simpl in *. lia.
Qed.

(** What the classifier skips: an assignment at column 0 with several
    targets, or with a tuple as its first target. *)
Lemma classify_skipped_inv source n sk :
  classify source n = Some (FoundSkipped sk) →
  ∃ targets value loc,
    n = Assign targets value loc
    ∧ col_offset loc = Some 0
    ∧ (1 < length targets
       ∨ ∃ elts ctx l, targets = [Tuple elts ctx l]).
Proof.
  destruct n as [| targets value loc | | | | | | | | | | | | |]; try done.
  simpl. case_bool_decide as Hcol; [|done]. simpl.
  destruct (1 <? length targets) eqn:Hlen.
  - intros _. apply Nat.ltb_lt in Hlen. eauto 10.
  - apply Nat.ltb_ge in Hlen.
    destruct targets as [|target [|? ?]]; [done| |simpl in Hlen; lia].
    destruct target; try done; [by repeat case_match|].
    intros _. eauto 10.
Qed.

(** The transformer returns a skipped statement as it is. *)
Lemma visit_skipped vars source n sk count :
  classify source n = Some (FoundSkipped sk) →
  visit (visit_Assign vars) n count = (n, count).
Proof.
  intros (targets & value & loc & -> & Hcol & Hshape)%classify_skipped_inv.
  simpl. rewrite bool_decide_true by done. simpl.
  destruct Hshape as [Hlen | (elts & ctx & l & ->)]; [|done].
  destruct (length targets =? 1) eqn:E; [apply Nat.eqb_eq in E; lia|done].
Qed.

(** A node with all its locations, and so its children. *)
Lemma fully_located_elem tree d :
  fully_located tree = true → subnode d tree →
  from_option complete true (node_loc d) = true.
Proof.
  unfold fully_located. rewrite forallb_forall. intros Hall Hd.
  apply Hall, list_elem_of_In, elem_of_walk, Hd.
Qed.

Lemma fully_located_subnode tree d :
  fully_located tree = true → subnode d tree → fully_located d = true.
Proof.
  intros Htree Hd. unfold fully_located. apply forallb_forall.
  intros e He%list_elem_of_In%elem_of_walk.
  eapply fully_located_elem; [done|]. by eapply subnode_trans.
Qed.

Lemma fix_location_complete loc inh :
  complete loc = true → (fix_location loc inh).1 = loc.
Proof.
  destruct loc as [[?|] [?|] [?|] [?|]]; done.
Qed.

Lemma map_fixed {A} (f : A → A) (l : list A) :
  Forall (λ x, f x = x) l → map f l = l.
Proof. induction 1; simpl; congruence. Qed.

Lemma fmap_fixed {A} (f : A → A) (o : option A) :
  Forall (λ x, f x = x) (option_list o) → f <$> o = o.
Proof. destruct o; simpl; [|done]. intros [-> _]%Forall_cons. done. Qed.

(** [fix_missing_locations] changes nothing in a tree that has all its
    locations. *)
Lemma fix_node_located (n : node) :
  fully_located n = true → ∀ inh, fix_node n inh = n.
Proof.
  induction n as [n IH] using node_children_ind. intros Hloc inh.
  assert (Hkids : Forall (λ c, ∀ i, fix_node c i = c) (iter_child_nodes n)).
  { apply Forall_forall. intros c Hc.
    rewrite Forall_forall in IH. apply (IH c Hc).
    eapply fully_located_subnode; [done|].
    econstructor; [done|constructor]. }
  pose proof (fully_located_elem n n Hloc (subnode_refl n)) as Hn.
  clear IH Hloc.
  destruct n; cbn -[fix_location] in Hkids, Hn |- *;
    repeat (rewrite Forall_cons in Hkids || rewrite Forall_app in Hkids);
    destruct_and?;
    try match goal with
    | loc : option location |- _ =>
        destruct loc; cbn -[fix_location] in Hn |- *
    end;
    try match goal with
    | |- context [fix_location ?loc inh] =>
        pose proof (fix_location_complete loc inh Hn) as Hfix;
        destruct (fix_location loc inh) as [loc' i]; simpl in Hfix; subst loc'
    end;
    repeat match goal with
    | H : Forall _ ?l |- context [map (λ c, fix_node c ?i) ?l] =>
        rewrite (map_fixed (λ c, fix_node c i) l)
          by (eapply Forall_impl; [exact H|]; simpl; auto)
    | H : Forall _ (option_list ?o) |- context [(λ c, fix_node c ?i) <$> ?o] =>
        rewrite (fmap_fixed (λ c, fix_node c i) o)
          by (eapply Forall_impl; [exact H|]; simpl; auto)
    | H : ∀ i, fix_node ?c i = ?c |- context [fix_node ?c ?i] =>
        rewrite (H i)
    end; try done.
  (* the defaults of keyword-only parameters *)
  f_equal. apply map_fixed.
  match goal with
  | H : Forall _ (omap id ?l) |- _ =>
      revert H; clear; induction l as [|[x|] l IHl]; simpl; intros Hall
  end; [done| |].
  - apply Forall_cons in Hall as [Hx Hl]. constructor; [|by apply IHl].
    simpl. f_equal. apply Hx.
  - constructor; [done|by apply IHl].
Qed.

(** A convertible assignment at column 0 becomes a function definition of
    the same name, at the same line and column, without parameters, whose
    body is the single statement [return value]; the value is the node of
    the assignment. *)
Lemma visit_converts vars id ctx name_loc value loc count :
  col_offset loc = Some 0 →
  id ∈ vars →
  visit (visit_Assign vars) (Assign [Name id ctx name_loc] value loc) count
  = (FunctionDef id no_arguments [Return (Some value) unlocated] [] None
       (Loc (Ast.lineno loc) (Some 0) None None),
     S count).
Proof.
  intros Hcol Hin. simpl. rewrite Hcol.
  rewrite bool_decide_true by done. simpl.
  by rewrite bool_decide_true by done.
Qed.

(** C5, amended. A statement that the classifier skips is returned by the
    transformer as the same node; when it is a statement of the module body
    it sits at the same position of the tree that is handed to the renderer,
    which has as many statements as before. The text written for it is the
    renderer's text for that node. *)
Theorem skipped_statement_node_unchanged (source : string)
    (vars : gset string) (body : list node) (i : nat) (stmt : node)
    (sk : SkippedPattern) :
  body !! i = Some stmt →
  classify source stmt = Some (FoundSkipped sk) →
  fully_located stmt = true →
  (∀ count, visit (visit_Assign vars) stmt count = (stmt, count))
  ∧ ∃ body',
      fix_missing_locations (transform_tree vars (Module body)) = Module body'
      ∧ length body' = length body
      ∧ body' !! i = Some stmt.
Proof.
  intros Hi Hskip Hloc. split.
  { intros count. by eapply visit_skipped. }
  unfold transform_tree. simpl.
  pose proof (thread_lookup (visit (visit_Assign vars)) body 0 i stmt Hi)
    as [st_i Hnew].
  pose proof (thread_length (visit (visit_Assign vars)) body 0) as Hlen.
  destruct (thread _ body 0) as [body' st]. simpl in *.
  eexists. split; [reflexivity|]. split.
  - by rewrite length_map.
  - rewrite list_lookup_fmap, Hnew. simpl.
    rewrite (visit_skipped _ _ _ _ _ Hskip). simpl.
    f_equal. by apply fix_node_located.
Qed.

Lemma skipped_statement_node_unchanged_witness :
  (∀ count,
      visit (visit_Assign {["compute"]})
        (Assign [Tuple [Name "a" Store (parsed_at 1 0 1 1);
                        Name "b" Store (parsed_at 1 3 1 4)] Store
                   (parsed_at 1 0 1 4)]
           (Call (Name "compute" Load (parsed_at 1 7 1 14)) [] []
              (parsed_at 1 7 1 16))
           (parsed_at 1 0 1 16)) count
      = (Assign [Tuple [Name "a" Store (parsed_at 1 0 1 1);
                        Name "b" Store (parsed_at 1 3 1 4)] Store
                   (parsed_at 1 0 1 4)]
           (Call (Name "compute" Load (parsed_at 1 7 1 14)) [] []
              (parsed_at 1 7 1 16))
           (parsed_at 1 0 1 16), count))
  ∧ ∃ body',
      fix_missing_locations (transform_tree {["compute"]} unpacking_tree)
      = Module body'
      ∧ length body' = 1
      ∧ body' !! 0 = unpacking_tree_body !! 0.
Proof.
  apply (skipped_statement_node_unchanged unpacking_text {["compute"]}
           unpacking_tree_body 0 _
           (mkSkippedPattern (Some 1) "tuple unpacking" unpacking_text)).
  - reflexivity.
  - vm_compute. reflexivity.
  - vm_compute. reflexivity.
Defined.

(** C5, as stated, fails: the whole target is the statement [a = b = "x"],
    which the classifier skips with that text, and the text written by the
    transform is [a = b = 'x']. *)
Lemma skipped_statement_text_changes :
  let w := project chained_text reader_text in
  (analyze_file example_parse config_py w).1
  = Ok ([], [mkSkippedPattern (Some 1) "multiple assignment" chained_text])
  ∧ (transform_file example_parse Unparse.unparse config_py [] w).1
    = Ok "a = b = 'x'"
  ∧ "a = b = 'x'" ≠ chained_text.
Proof.
  repeat split; try (vm_compute; reflexivity).
  vm_compute. discriminate.
Qed.

(** C7. In the target [x = 1; y = 2] followed by [y = 3], the analysis
    converts [x] and [y]. The statement [y = 2] is a statement of the module
    body with the single target [y], a converted name, and the transform
    leaves it an assignment: only the statements at column 0 become function
    definitions. *)
Theorem top_level_assignment_not_replaced :
  let w := project shadowed_text reader_text in
  ∃ variables,
    (analyze_file example_parse config_py w).1 = Ok (variables, [])
    ∧ name <$> variables = ["x"; "y"]
    ∧ (transform_file example_parse Unparse.unparse config_py variables w).1
      = Ok (lines ["def x():"; "    return 1"; "y = 2"; "";
                   "def y():"; "    return 3"]).
Proof.
  eexists. split; [vm_compute; reflexivity|].
  split; vm_compute; reflexivity.
Qed.

(** C8. The target [x = 1; x = 2] is converted for the name [x]; the run
    writes a text whose third line is [x = 2], at column 0, and the analysis
    of the written file finds a binding named [x] again. *)
Theorem converted_name_found_again :
  let w := project twice_text reader_text in
  let w' := (example_cli (mkArgs config_py None true) w).2 in
  (analyze_file example_parse config_py w).1
  = Ok ([mkVariable "x" (Some 1) (Constant (CInt 1) (parsed_at 1 4 1 5)) "1"],
        [])
  ∧ files w' !! config_py = Some (File (Some twice_converted_text))
  ∧ example_parse twice_converted_text = Some twice_converted_tree
  ∧ (analyze_file example_parse config_py w').1
    = Ok ([mkVariable "x" (Some 3) (Constant (CInt 2) (parsed_at 3 4 3 5)) "2"],
          []).
Proof. repeat split; vm_compute; reflexivity. Qed.

End TransformerFacts.

(** ** Text tests *)

Module StringFacts.

Lemma append_cons (c : ascii) (a b : string) :
  String c a +:+ b = String c (a +:+ b).
Proof. reflexivity. Qed.

Lemma list_ascii_of_append (a b : string) :
  String.list_ascii_of_string (a +:+ b)
  = String.list_ascii_of_string a ++ String.list_ascii_of_string b.
Proof.
  induction a as [|c a IH]; [done|]. rewrite append_cons. simpl.
  by rewrite IH.
Qed.

Lemma string_of_list_app (k l : list ascii) :
  String.string_of_list_ascii (k ++ l)
  = String.string_of_list_ascii k +:+ String.string_of_list_ascii l.
Proof.
  induction k as [|c k IH]; [done|]. simpl. by rewrite IH, append_cons.
Qed.

(** [s.endswith(t)] says that [s] is some text followed by [t]. *)
Lemma endswith_true (s t : string) :
  endswith s t = true ↔ ∃ p, s = p +:+ t.
Proof.
  unfold endswith. rewrite bool_decide_eq_true. split.
  - intros [k Hk]. exists (String.string_of_list_ascii k).
    rewrite <- (String.string_of_list_ascii_of_string s), Hk.
    by rewrite string_of_list_app, String.string_of_list_ascii_of_string.
  - intros [p ->]. exists (String.list_ascii_of_string p).
    apply list_ascii_of_append.
Qed.

(** [s.startswith(p)] says that [s] is [p] followed by some text. *)
Lemma startswith_true (s p : string) :
  startswith s p = true ↔ ∃ r, s = p +:+ r.
Proof.
  unfold startswith. rewrite bool_decide_eq_true. split.
  - intros [k Hk]. exists (String.string_of_list_ascii k).
    rewrite <- (String.string_of_list_ascii_of_string s), Hk.
    by rewrite string_of_list_app, String.string_of_list_ascii_of_string.
  - intros [r ->]. exists (String.list_ascii_of_string r).
    apply list_ascii_of_append.
Qed.

Lemma length_append (a b : string) :
  String.length (a +:+ b) = String.length a + String.length b.
Proof.
  induction a as [|c a IH]; [done|]. rewrite append_cons. simpl.
  by rewrite IH.
Qed.

Lemma append_assoc (a b c : string) : (a +:+ b) +:+ c = a +:+ (b +:+ c).
Proof.
  induction a as [|x a IH]; [done|]. by rewrite !append_cons, IH.
Qed.

End StringFacts.

(** ** Imports and usages *)

Module UsageFacts.

Import AstFacts NodeTransformer FixLocations UsageUpdater Engine Notions.
Import StringFacts Examples.

Section FromImport.
Variable target_module : string.
Variable converted_vars : gset string.

Lemma from_module_matches_suffix module :
  from_module_matches module target_module = true →
  ∃ m p, module = Some m ∧ target_module = p +:+ m.
Proof.
  destruct module as [m|]; [|done]. simpl.
  intros [Heq | [_ Hend]%andb_true_iff]%orb_true_iff.
  - apply bool_decide_eq_true in Heq as ->. by exists target_module, "".
  - apply endswith_true in Hend as [p ->]. eauto.
Qed.

Lemma from_module_matches_aligned m :
  m ≠ "" →
  m = target_module ∨ (∃ p, target_module = p +:+ "." +:+ m) →
  from_module_matches (Some m) target_module = true.
Proof.
  intros Hm [-> | [p ->]]; simpl; apply orb_true_iff.
  - left. by apply bool_decide_eq_true.
  - right. apply andb_true_iff. split.
    + by rewrite negb_true_iff, bool_decide_eq_false.
    + apply endswith_true. exists (p +:+ "."). by rewrite append_assoc.
Qed.

(** C2, amended. For a statement [from module import name], with [st] the
    bindings and warnings so far:
    - when the stated module is not empty and is the target module name, or
      the target module name ends with a dot followed by the stated module,
      the name [*] adds a warning for the statement and a name of the
      converted set adds a binding under its local name;
    - the statement changes [st] only if the target module name ends with
      the stated module and the name is [*] or in the converted set. *)
Theorem from_import_registration (module : option string) (a : Ast.alias)
    (level : nat) (loc : location) (st : import_state) :
  let st' :=
    import_step target_module converted_vars st
      (ImportFrom module [a] level loc) in
  (∀ m,
      module = Some m → m ≠ "" →
      m = target_module ∨ (∃ p, target_module = p +:+ "." +:+ m) →
      (alias_name a = "*" →
       st' = (st.1, st.2 ++ [mkStarImportWarning (Ast.lineno loc) m]))
      ∧ (alias_name a ≠ "*" → alias_name a ∈ converted_vars →
         st' = (<[imported_as a :=
                    mkImportInfo (alias_name a) (imported_as a) "from" m]>
                  st.1, st.2)))
  ∧ (st' ≠ st →
     ∃ m, module = Some m
          ∧ (∃ p, target_module = p +:+ m)
          ∧ (alias_name a = "*" ∨ alias_name a ∈ converted_vars)).
Proof.
  simpl. split.
  - intros m -> Hm Hmatch.
    rewrite (from_module_matches_aligned m Hm Hmatch). simpl.
    destruct st as [imports warnings]. simpl. split.
    + intros Hstar. by rewrite bool_decide_true.
    + intros Hstar Hin. by rewrite bool_decide_false, bool_decide_true.
  - destruct (from_module_matches module target_module) eqn:Hmatch; [|done].
    apply from_module_matches_suffix in Hmatch as (m & p & -> & Hp).
    simpl. destruct st as [imports warnings]. simpl.
    case_bool_decide as Hstar; [eauto 10|].
    case_bool_decide as Hin; [eauto 10|done].
Qed.

End FromImport.

Lemma from_import_registration_witness :
  import_step "pkg.config" {["schema_name"]} (∅, [])
    (ImportFrom (Some "config") [Alias "schema_name" (Some "name")] 0
       (parsed_at 1 0 1 38))
  = (<["name" := mkImportInfo "schema_name" "name" "from" "config"]> ∅, []).
Proof.
  apply (from_import_registration "pkg.config" {["schema_name"]}
           (Some "config") (Alias "schema_name" (Some "name")) 0
           (parsed_at 1 0 1 38) (∅, [])).
  - reflexivity.
  - discriminate.
  - right. by exists "pkg".
  - discriminate.
  - vm_compute. reflexivity.
Defined.

(** C2, as stated, fails in both directions. With the target module [config]
    and the statement [from pkg.config import schema_name], the target
    module name is a dotted suffix of the stated one and nothing is
    registered; with the target module [pkg.config] and the statement
    [from config import schema_name], it is not, and a binding is
    registered. *)
Lemma from_import_suffix_direction :
  let a := Alias "schema_name" None in
  let loc := parsed_at 1 0 1 34 in
  (spec_from_module_matches (Some "pkg.config") "config" = true
   ∧ "schema_name" ∈ ({["schema_name"]} : gset string)
   ∧ import_step "config" {["schema_name"]} (∅, [])
       (ImportFrom (Some "pkg.config") [a] 0 loc) = (∅, []))
  ∧ (spec_from_module_matches (Some "config") "pkg.config" = false
     ∧ import_step "pkg.config" {["schema_name"]} (∅, [])
         (ImportFrom (Some "config") [a] 0 loc)
       = (<["schema_name" :=
              mkImportInfo "schema_name" "schema_name" "from" "config"]> ∅,
          [])).
Proof.
  split; [split; [|split]|split];
    first [vm_compute; reflexivity | by apply elem_of_singleton].
Qed.

(** C3. The consuming file imports [schema_name] and then assigns to it. The
    rewriter flags the target of the assignment and wraps it in a call; the
    text it returns is [schema_name() = 1] on the second line, an assignment
    to a call, which the host parser refuses. *)
Theorem assignment_target_rewritten :
  let w := project config_text rebinding_text in
  let info := mkImportInfo "schema_name" "schema_name" "from" "config" in
  (update_usage_file example_parse Unparse.unparse app_py config_py ["proj"]
     {["schema_name"]} w).1
  = Ok (Some (lines ["from config import schema_name"; "schema_name() = 1"]),
        [mkUsageUpdate (Some 2) (Some 0) "schema_name" "schema_name()" info],
        [])
  ∧ ∃ import_stmt call value loc,
      (transform_usages {["schema_name" := info]} {["schema_name"]}
         rebinding_tree).1
      = Module [import_stmt; Assign [call] value loc]
      ∧ assignable call = false.
Proof.
  split; [vm_compute; reflexivity|].
  do 4 eexists. split; vm_compute; reflexivity.
Qed.

(** *** The alias table *)

Lemma foldl_invariant {A B} (f : B → A → B) (P : B → Prop) (R : A → Prop)
    (l : list A) (b : B) :
  (∀ b a, P b → R a → P (f b a)) → P b → Forall R l → P (foldl f b l).
Proof.
  intros step Hb Hl. revert b Hb.
  induction Hl as [|a l Ha _ IH]; intros b Hb; simpl; [done|].
  apply IH. by apply step.
Qed.

Section Analysis.
Variable target_module : string.
Variable converted_vars : gset string.

Abbreviation step := (import_step target_module converted_vars).
Abbreviation analysis :=
  (analyze_imports_tree target_module converted_vars).

(** A warning, once recorded, stays. *)
Lemma from_alias_keeps module line st a w :
  w ∈ st.2 → w ∈ (from_alias converted_vars module line st a).2.
Proof.
  destruct st as [imports warnings]. simpl. intros Hw.
  repeat case_bool_decide; simpl; [|done|done].
  apply elem_of_app. by left.
Qed.

Lemma import_step_keeps st n w : w ∈ st.2 → w ∈ (step st n).2.
Proof.
  intros Hw. destruct n; simpl; try done.
  - revert st Hw. induction names as [|a names IH]; intros st Hw; [done|].
    simpl. apply IH. destruct st as [imports warnings]. simpl.
    by destruct (import_matches _ _).
  - destruct (from_module_matches _ _); [|done].
    apply (foldl_invariant _ (λ st, w ∈ st.2) (λ _, True)); [|done|].
    + intros b a Hb _. by apply from_alias_keeps.
    + by apply Forall_forall.
Qed.

Lemma import_steps_keep l st w : w ∈ st.2 → w ∈ (foldl step st l).2.
Proof.
  intros Hw.
  apply (foldl_invariant _ (λ st, w ∈ st.2) (λ _, True)); [|done|].
  - intros b a Hb _. by apply import_step_keeps.
  - by apply Forall_forall.
Qed.

(** A [*] among the names of a matching [from] import records the warning
    of the statement. *)
Lemma from_aliases_star module line names st a :
  a ∈ names → alias_name a = "*" →
  mkStarImportWarning line module
    ∈ (foldl (from_alias converted_vars module line) st names).2.
Proof.
  intros Ha Hstar. revert st.
  induction Ha as [a names | a b names Ha IH]; intros st; simpl.
  - apply (foldl_invariant _ (λ st, _ ∈ st.2) (λ _, True)).
    + intros s c Hs _. by apply from_alias_keeps.
    + destruct st as [imports warnings]. simpl.
      rewrite bool_decide_true by done. simpl.
      apply elem_of_app. right. by apply list_elem_of_singleton.
    + by apply Forall_forall.
  - by apply IH.
Qed.

Lemma analysis_star_warning tree module names level loc a :
  subnode (ImportFrom module names level loc) tree →
  from_module_matches module target_module = true →
  a ∈ names → alias_name a = "*" →
  mkStarImportWarning (Ast.lineno loc) (default "" module) ∈ (analysis tree).2.
Proof.
  intros Hnode%elem_of_walk Hmatch Ha Hstar.
  unfold analyze_imports_tree.
  generalize (∅ : gmap string ImportInfo, [] : list StarImportWarning).
  apply list_elem_of_split in Hnode as (before & after & ->).
  intros st. rewrite foldl_app. simpl.
  apply import_steps_keep. simpl. rewrite Hmatch.
  by eapply from_aliases_star.
Qed.

(** Every binding of the table was stated by name in an import statement of
    the tree. *)
Lemma analysis_explicit tree key info :
  (analysis tree).1 !! key = Some info →
  explicit_binding converted_vars tree key info.
Proof.
  unfold analyze_imports_tree. revert key info.
  apply (foldl_invariant _
           (λ st : import_state, ∀ key info, st.1 !! key = Some info →
                     explicit_binding converted_vars tree key info)
           (λ n, subnode n tree)).
  - intros st n Hst Hn. destruct n; simpl; try done.
    + (* import *)
      apply (foldl_invariant _
               (λ st : import_state, ∀ key info, st.1 !! key = Some info →
                         explicit_binding converted_vars tree key info)
               (λ a, a ∈ names));
        [|done|by apply Forall_forall].
      clear st Hst. intros [imports warnings] a Hst Ha. simpl in *.
      destruct (import_matches _ _); [|done]. simpl.
      intros key info [[<- <-]|[_ Hold]]%lookup_insert_Some; [|by apply Hst].
      right. eauto 10.
    + (* from ... import *)
      destruct (from_module_matches _ _); [|done].
      apply (foldl_invariant _
               (λ st : import_state, ∀ key info, st.1 !! key = Some info →
                         explicit_binding converted_vars tree key info)
               (λ a, a ∈ names));
        [|done|by apply Forall_forall].
      clear st Hst. intros [imports warnings] a Hst Ha. simpl in *.
      case_bool_decide as Hstar; [done|].
      case_bool_decide as Hin; [|done]. simpl.
      intros key info [[<- <-]|[_ Hold]]%lookup_insert_Some; [|by apply Hst].
      left. eauto 15.
  - simpl. intros key info. by rewrite lookup_empty.
  - apply Forall_forall. intros n. apply elem_of_walk.
Qed.

End Analysis.

(** *** The usage rewriter *)

Section Usages.
Variable imports : gmap string ImportInfo.
Variable converted_vars : gset string.

(** Every update the rewriter records went through a binding of the alias
    table. *)
Lemma transform_usages_resolved tree :
  Forall (resolved_by imports converted_vars)
    (transform_usages imports converted_vars tree).2.
Proof.
  unfold transform_usages.
  pose proof (VisitFacts.visit_state
                (usage_method imports converted_vars)
                (λ ups ups', ∃ new,
                    ups' = ups ++ new
                    ∧ Forall (resolved_by imports converted_vars) new))
    as Hvisit.
  destruct (Hvisit) with (n := tree) (st := @nil UsageUpdate)
    as (new & -> & Hnew); [| | |done].
  - intros st. exists []. by rewrite app_nil_r.
  - intros a b c (n1 & -> & H1) (n2 & -> & H2). exists (n1 ++ n2).
    rewrite app_assoc. split; [done|]. by apply Forall_app.
  - intros n st r Hm. destruct n; try done; simpl in Hm.
    + destruct (imports !! id) as [info|] eqn:Hid; [|done].
      case_bool_decide as Htype; [|done]. injection Hm as <-. simpl.
      eexists. split; [done|]. constructor; [|done]. by left.
    + destruct n; try done.
      destruct (imports !! _) as [info|] eqn:Hkey; [|done].
      case_bool_decide as Hattr; [|done]. injection Hm as <-. simpl.
      eexists. split; [done|]. constructor; [|done]. right. eauto.
Qed.

Lemma usage_method_dotted parts usage ups :
  dotted_access parts usage →
  imports !! hd "" parts = None →
  imports !! ("__module__" +:+ hd "" parts) = None →
  usage_method imports converted_vars usage ups = None.
Proof.
  intros Husage Hname Hmod.
  destruct Husage as [id ctx loc | parts value attr ctx loc Hvalue]; simpl.
  - simpl in Hname. by rewrite Hname.
  - destruct Hvalue as [id ? ? | ]; [|done].
    simpl in Hmod. by rewrite Hmod.
Qed.

Lemma visit_Attribute_falls_through value attr ctx loc ups :
  usage_method imports converted_vars (Attribute value attr ctx loc) ups = None →
  visit (usage_method imports converted_vars) (Attribute value attr ctx loc) ups
  = ((Attribute
        (visit (usage_method imports converted_vars) value ups).1 attr ctx loc),
     (visit (usage_method imports converted_vars) value ups).2).
Proof.
  intros Hm. cbn [visit]. rewrite Hm.
  by destruct (visit (usage_method imports converted_vars) value ups).
Qed.

(** The rewriter leaves a dotted access alone when the alias table has
    nothing for its first component. *)
Lemma visit_dotted parts usage :
  dotted_access parts usage →
  imports !! hd "" parts = None →
  imports !! ("__module__" +:+ hd "" parts) = None →
  ∀ ups, visit (usage_method imports converted_vars) usage ups = (usage, ups).
Proof.
  induction 1 as [id ctx loc | parts value attr ctx loc Hvalue IH];
    intros Hname Hmod ups.
  - simpl in *. by rewrite Hname.
  - rewrite visit_Attribute_falls_through
      by (eapply usage_method_dotted; [by constructor|done|done]).
    assert (hd "" (parts ++ [attr]) = hd "" parts) as Hhd.
    { destruct Hvalue as [|[|? ?] ? ? ? ? ?]; done. }
    rewrite Hhd in Hname, Hmod.
    by rewrite (IH Hname Hmod ups).
Qed.

End Usages.

(** *** [update_usage_file] *)

Lemma read_file_text (p : path) (w : world) (text : string) :
  files w !! p = Some (File (Some text)) →
  read_file p w = (Ok text, logged (Read p) w).
Proof. intros Hp. unfold read_file. by rewrite Hp. Qed.

(** What [update_usage_file] returns for a file that can be read and parsed,
    when the target has a module name below the module root. *)
Lemma update_usage_file_result parse unparse
    (file_path target module_root : path) (converted_vars : gset string)
    (w : world) (text : string) (tree : node) (target_module : string) :
  files w !! file_path = Some (File (Some text)) →
  parse text = Some tree →
  get_module_name_from_file target module_root = Some target_module →
  target_module ≠ "" →
  (update_usage_file parse unparse file_path target module_root
     converted_vars w).1
  = Ok (let '(imports, star_warnings) :=
          analyze_imports_tree target_module converted_vars tree in
        if bool_decide (imports = ∅) && bool_decide (star_warnings = [])
        then (None, [], [])
        else
          let '(new_tree, updates) :=
            transform_usages imports converted_vars tree in
          if bool_decide (updates = []) then (None, [], star_warnings)
          else (Some (unparse (fix_missing_locations new_tree)), updates,
                star_warnings)).
Proof.
  intros Hfile Hparse Hmodule Hne.
  unfold update_usage_file. rewrite Hmodule. simpl.
  rewrite bool_decide_false by done.
  unfold mbind, io_mbind, io_bind, analyze_imports.
  rewrite (read_file_text _ _ _ Hfile).
  unfold mbind, io_mbind, io_bind.
  rewrite (read_file_text file_path _ text) by done.
  rewrite Hparse. unfold mret, io_mret, io_ret.
  destruct (analyze_imports_tree _ _ tree) as [imports star_warnings].
  destruct (bool_decide (imports = ∅) && bool_decide (star_warnings = []));
    [done|].
  destruct (transform_usages imports converted_vars tree) as [new_tree updates].
  by destruct (bool_decide (updates = [])).
Qed.

(** A bare name that no import statement of the file binds by name is
    returned by the rewriter as it is, with no update. *)
Lemma unbound_name_untouched (target_module : string)
    (converted_vars : gset string) (tree : node) (id : string)
    (ctx : expr_context) (loc : location) (ups : list UsageUpdate) :
  (∀ info, ¬ explicit_binding converted_vars tree id info) →
  NodeTransformer.visit
    (usage_method (analyze_imports_tree target_module converted_vars tree).1
       converted_vars)
    (Name id ctx loc) ups
  = (Name id ctx loc, ups).
Proof.
  intros Hunbound. simpl.
  destruct (_ !! id) as [info|] eqn:Hid; [|done].
  by apply analysis_explicit, Hunbound in Hid.
Qed.



(** Scenario D: the file with the wildcard import is left as it is, and the
    one warning is for its first line. *)
Example wildcard_file_untouched :
  (update_usage_file example_parse Unparse.unparse app_py config_py ["proj"]
     {["schema_name"]} (project config_text wildcard_text)).1
  = Ok (None, [], [mkStarImportWarning (Some 1) "config"]).
Proof. vm_compute. reflexivity. Qed.

(** Scenario B: a name imported by name is rewritten into a call, and the
    import line stays. *)
Example reader_file_rewritten :
  (update_usage_file example_parse Unparse.unparse app_py config_py ["proj"]
     {["schema_name"]} (project config_text reader_text)).1
  = Ok (Some (lines ["from config import schema_name";
                     "print(schema_name())"]),
        [mkUsageUpdate (Some 2) (Some 6) "schema_name" "schema_name()"
           (mkImportInfo "schema_name" "schema_name" "from" "config")],
        []).
Proof. vm_compute. reflexivity. Qed.

(** *** Dotted imports *)

Lemma dotless_append (a b : string) :
  dotless (a +:+ b) = dotless a && dotless b.
Proof.
  unfold dotless. by rewrite StringFacts.list_ascii_of_append, forallb_app.
Qed.

Lemma dotted_path_has_dot (first second : string) (rest : list string) :
  dotless (String.concat "." (first :: second :: rest)) = false.
Proof.
  change (String.concat "." (first :: second :: rest))
    with (first +:+ "." +:+ String.concat "." (second :: rest)).
  rewrite !dotless_append. by destruct (dotless first).
Qed.

Lemma dotless_imported_as (a : Ast.alias) :
  dotless (alias_name a) && from_option dotless true (asname a) = true →
  dotless (imported_as a) = true.
Proof.
  unfold imported_as. intros [Hname Has]%andb_true_iff.
  destruct (asname a) as [n|]; [|done]. by case_bool_decide.
Qed.

Lemma plain_alias_names_subnode (tree n : node) :
  plain_alias_names tree = true → subnode n tree →
  match n with
  | Import names _ =>
      forallb (fun a => from_option dotless true (asname a)) names
  | ImportFrom _ names _ _ =>
      forallb (fun a => dotless (alias_name a)
                        && from_option dotless true (asname a)) names
  | _ => true
  end = true.
Proof.
  unfold plain_alias_names. rewrite forallb_forall.
  intros Hplain Hn%AstFacts.elem_of_walk%list_elem_of_In.
  by apply (Hplain n).
Qed.

Section Registered.
Variable target_module : string.
Variable converted_vars : gset string.

(** A key of the alias table, once bound, stays bound. *)
Lemma from_alias_keeps_key module line st a key :
  is_Some (st.1 !! key) →
  is_Some ((from_alias converted_vars module line st a).1 !! key).
Proof.
  destruct st as [imports warnings]. simpl. intros Hkey.
  repeat case_bool_decide; simpl; [done| |done].
  apply lookup_insert_is_Some'. by right.
Qed.

Lemma import_alias_keeps_key st a key :
  is_Some (st.1 !! key) →
  is_Some ((import_alias target_module st a).1 !! key).
Proof.
  destruct st as [imports warnings]. simpl. intros Hkey.
  destruct (import_matches _ _); simpl; [|done].
  apply lookup_insert_is_Some'. by right.
Qed.

Lemma import_step_keeps_key st n key :
  is_Some (st.1 !! key) →
  is_Some ((import_step target_module converted_vars st n).1 !! key).
Proof.
  intros Hkey. destruct n; simpl; try done.
  - apply (foldl_invariant _ (λ st, is_Some (st.1 !! key)) (λ _, True));
      [|done|by apply Forall_forall].
    intros b a Hb _. by apply import_alias_keeps_key.
  - destruct (from_module_matches _ _); [|done].
    apply (foldl_invariant _ (λ st, is_Some (st.1 !! key)) (λ _, True));
      [|done|by apply Forall_forall].
    intros b a Hb _. by apply from_alias_keeps_key.
Qed.

Lemma import_aliases_bind names st a :
  a ∈ names → import_matches (alias_name a) target_module = true →
  is_Some ((foldl (import_alias target_module) st names).1
             !! ("__module__" +:+ imported_as a)).
Proof.
  intros Ha Hmatch. revert st.
  induction Ha as [a names | a b names Ha IH]; intros st; simpl.
  - apply (foldl_invariant _ (λ st, is_Some (st.1 !! _)) (λ _, True));
      [| |by apply Forall_forall].
    + intros s c Hs _. by apply import_alias_keeps_key.
    + destruct st as [imports warnings]. simpl. rewrite Hmatch. simpl.
      apply lookup_insert_is_Some'. by left.
  - by apply IH.
Qed.

(** An [import] statement of the file whose module matches leaves a binding
    under its key in the table of the file. *)
Lemma analysis_binds tree names loc a :
  subnode (Import names loc) tree →
  a ∈ names → import_matches (alias_name a) target_module = true →
  is_Some ((analyze_imports_tree target_module converted_vars tree).1
             !! ("__module__" +:+ imported_as a)).
Proof.
  intros Hnode%AstFacts.elem_of_walk Ha Hmatch.
  unfold analyze_imports_tree.
  generalize (∅ : gmap string ImportInfo, [] : list StarImportWarning).
  apply list_elem_of_split in Hnode as (before & after & ->).
  intros st. rewrite foldl_app. simpl.
  apply (foldl_invariant _ (λ st, is_Some (st.1 !! _)) (λ _, True));
    [| |by apply Forall_forall].
  - intros s n Hs _. by apply import_step_keeps_key.
  - by apply import_aliases_bind.
Qed.

End Registered.

(** C10, amended. In a parsed consuming file, [import p1.p2...pn] (two
    components or more, no alias), where the dotted path is the target
    module or a package above it, leaves in the alias table of the file a
    binding of kind direct under the key of the whole dotted path. No access
    is ever looked up under that key: when the table of the file binds
    nothing under the first component [p1], the rewriter returns every
    access [p1.p2...pn.attr] as it is and records no update for it, whatever
    [attr] is. *)
Theorem dotted_import_never_resolves (target_module : string)
    (converted_vars : gset string) (tree : node) (names : list Ast.alias)
    (loc : location) (parts : list string) :
  let dotted := String.concat "." parts in
  let imports := (analyze_imports_tree target_module converted_vars tree).1 in
  2 ≤ length parts →
  plain_alias_names tree = true →
  subnode (Import names loc) tree →
  Alias dotted None ∈ names →
  import_matches dotted target_module = true →
  imports !! ("__module__" +:+ dotted)
    = Some (mkImportInfo dotted dotted "direct" dotted)
  ∧ (imports !! hd "" parts = None →
     imports !! ("__module__" +:+ hd "" parts) = None →
     ∀ attr usage ups,
       dotted_access (parts ++ [attr]) usage →
       visit (usage_method imports converted_vars) usage ups = (usage, ups)).
Proof.
  intros dotted imports Hlen Hplain Hnode Halias Hmatch. split.
  - destruct parts as [|first [|second rest]]; simpl in Hlen; [lia|lia|].
    pose proof (dotted_path_has_dot first second rest) as Hdot.
    fold dotted in Hdot.
    destruct (analysis_binds target_module converted_vars tree names loc
                (Alias dotted None) Hnode Halias Hmatch) as [info Hinfo].
    change (imported_as (Alias dotted None)) with dotted in Hinfo.
    fold imports in Hinfo. rewrite Hinfo. f_equal.
    apply analysis_explicit in Hinfo
      as [(module & names' & level & loc' & a & Hsub & Ha & _ & _ & Hkey & _)
         |(names' & loc' & a & Hsub & Ha & Hkey & ->)].
    + pose proof (plain_alias_names_subnode _ _ Hplain Hsub) as Hnames.
      simpl in Hnames. rewrite forallb_forall in Hnames.
      apply list_elem_of_In, Hnames, dotless_imported_as in Ha.
      rewrite <- Hkey, dotless_append, Hdot in Ha. by rewrite andb_false_r in Ha.
    + apply String.app_inj in Hkey.
      pose proof (plain_alias_names_subnode _ _ Hplain Hsub) as Hnames.
      simpl in Hnames. rewrite forallb_forall in Hnames.
      apply list_elem_of_In, Hnames in Ha.
      unfold imported_as in Hkey |- *.
      destruct (asname a) as [n|]; [|by rewrite <- Hkey].
      case_bool_decide as Hempty; [by rewrite <- Hkey|].
      simpl in Ha. subst n. by rewrite Hdot in Ha.
  - intros Hname Hmod attr usage ups Husage.
    apply (visit_dotted _ _ _ _ Husage).
    + destruct parts as [|first [|second rest]]; simpl in Hlen |- *;
        [lia|lia|done].
    + destruct parts as [|first [|second rest]]; simpl in Hlen |- *;
        [lia|lia|done].
Qed.

Lemma dotted_import_never_resolves_witness :
  let imports := (analyze_imports_tree "pkg.sub" {["name"]} dotted_tree).1 in
  imports !! "__module__pkg.sub"
    = Some (mkImportInfo "pkg.sub" "pkg.sub" "direct" "pkg.sub")
  ∧ (imports !! "pkg" = None →
     imports !! "__module__pkg" = None →
     ∀ attr usage ups,
       dotted_access (["pkg"; "sub"] ++ [attr]) usage →
       visit (usage_method imports {["name"]}) usage ups = (usage, ups)).
Proof.
  apply (dotted_import_never_resolves "pkg.sub" {["name"]} dotted_tree
           [Alias "pkg.sub" None] (parsed_at 1 0 1 14) ["pkg"; "sub"]).
  - simpl. lia.
  - vm_compute. reflexivity.
  - eapply subnode_child; [|apply subnode_refl]. simpl. by left.
  - by left.
  - vm_compute. reflexivity.
Defined.

(** C10, as stated, fails when the file also binds the first component.
    With [import pkg.sub] and [import pkg] in the consuming file, and [sub]
    and [name] converted in the target [pkg/sub.py], the access
    [pkg.sub.name] is not left alone: its part [pkg.sub] is flagged through
    the binding of [pkg], one update is recorded, and the text returned has
    [pkg.sub().name]. *)
Theorem dotted_access_rewritten_through_package :
  (analyze_imports_tree "pkg.sub" {["sub"; "name"]} package_tree).1
    !! "__module__pkg.sub"
  = Some (mkImportInfo "pkg.sub" "pkg.sub" "direct" "pkg.sub")
  ∧ (update_usage_file example_parse Unparse.unparse ["proj"; "app.py"]
       ["proj"; "pkg"; "sub.py"] ["proj"] {["sub"; "name"]}
       (on_files (<[ ["proj"; "app.py"] := File (Some package_text) ]> ∅))).1
    = Ok (Some (lines ["import pkg.sub"; "import pkg";
                       "print(pkg.sub().name)"]),
          [mkUsageUpdate (Some 3) (Some 6) "pkg.sub" "pkg.sub()"
             (mkImportInfo "pkg" "pkg" "direct" "pkg")],
          []).
Proof. split; vm_compute; reflexivity. Qed.

(** The whole file [import pkg.sub] / [print(pkg.sub.name)], for the target
    [pkg/sub.py] and the converted name [name]: nothing to update. *)
Example dotted_file_untouched :
  (update_usage_file example_parse Unparse.unparse ["proj"; "app.py"]
     ["proj"; "pkg"; "sub.py"] ["proj"] {["name"]}
     (on_files (<[ ["proj"; "app.py"] := File (Some dotted_text) ]> ∅))).1
  = Ok (None, [], []).
Proof. vm_compute. reflexivity. Qed.

End UsageFacts.

(** ** The run *)

Module CliFacts.

Import Analyzer Transformer UsageUpdater Engine Notions RunNotions Examples.

(** *** Computations that only read *)

Lemma read_only_ret {A} (a : A) : read_only (mret a : io A).
Proof. intros w. split; [done|]. exists []. by rewrite app_nil_r. Qed.

Lemma read_only_raise {A} (e : exn) : read_only (raise e : io A).
Proof. intros w. split; [done|]. exists []. by rewrite app_nil_r. Qed.

Lemma read_only_lift {A} (o : outcome A) : read_only (lift o).
Proof. intros w. split; [done|]. exists []. by rewrite app_nil_r. Qed.

Lemma read_only_get_files : read_only get_files.
Proof. intros w. split; [done|]. exists []. by rewrite app_nil_r. Qed.

Lemma read_only_read_file (p : path) : read_only (read_file p).
Proof.
  intros w. unfold read_file.
  destruct (files w !! p) as [[|[text|]]|]; simpl;
    (split; [done|]); exists [Read p]; (split; [done|]); by repeat constructor.
Qed.

Lemma read_only_bind {A B} (m : io A) (k : A → io B) :
  read_only m → (∀ a, read_only (k a)) → read_only (m ≫= k).
Proof.
  intros Hm Hk w. unfold mbind, io_mbind, io_bind.
  destruct (Hm w) as (Hfiles & reads & Hevents & Hreads).
  destruct (m w) as [[a|e] w1]; simpl in *.
  - destruct (Hk a w1) as (Hfiles' & reads' & Hevents' & Hreads').
    split; [congruence|]. exists (reads ++ reads').
    rewrite Hevents', Hevents, app_assoc. split; [done|]. by apply Forall_app.
  - split; [done|]. eauto.
Qed.

Lemma read_only_for_each {A B} (body : B → A → io B) (l : list A) (acc : B) :
  (∀ acc x, read_only (body acc x)) → read_only (for_each body acc l).
Proof.
  intros Hbody. revert acc. induction l as [|x l IH]; intros acc; simpl.
  - apply (read_only_ret acc).
  - apply (read_only_bind (body acc x)); [apply Hbody|]. intros acc'. apply IH.
Qed.

Lemma read_only_try_except {A} (body : io A) (handler : exn → io A) :
  read_only body → (∀ e, read_only (handler e)) →
  read_only (try_except body handler).
Proof.
  intros Hbody Hhandler w. unfold try_except.
  destruct (Hbody w) as (Hfiles & reads & Hevents & Hreads).
  destruct (body w) as [[a|e] w1]; simpl in *; [eauto|].
  destruct (is_Exception e); [|eauto].
  destruct (Hhandler e w1) as (Hfiles' & reads' & Hevents' & Hreads').
  split; [congruence|]. exists (reads ++ reads').
  rewrite Hevents', Hevents, app_assoc. split; [done|]. by apply Forall_app.
Qed.

(** *** Computations that only write *)

Lemma write_only_write_file (p : path) (text : string) :
  write_only (write_file p text).
Proof.
  intros w. exists [Write p]. unfold write_file.
  destruct (refuses_write w p); simpl.
  - split; [done|]. split; [by repeat constructor|].
    intros q Hq. by destruct Hq.
  - split; [done|]. split; [by repeat constructor|].
    intros q Hq. destruct (decide (q = p)) as [->|Hne].
    + by apply list_elem_of_singleton.
    + by rewrite lookup_insert_ne in Hq.
Qed.

Lemma write_only_ret {A} (a : A) : write_only (mret a : io A).
Proof.
  intros w. exists []. rewrite app_nil_r. split; [done|]. split; [done|].
  intros q Hq. by destruct Hq.
Qed.

Lemma write_only_bind {A B} (m : io A) (k : A → io B) :
  write_only m → (∀ a, write_only (k a)) → write_only (m ≫= k).
Proof.
  intros Hm Hk w. unfold mbind, io_mbind, io_bind.
  destruct (Hm w) as (writes & Hevents & Hwrites & Hchanged).
  destruct (m w) as [[a|e] w1]; simpl in *; [|by exists writes].
  destruct (Hk a w1) as (writes' & Hevents' & Hwrites' & Hchanged').
  exists (writes ++ writes').
  rewrite Hevents', Hevents, app_assoc. split; [done|].
  split; [by apply Forall_app|].
  intros q Hq. apply elem_of_app.
  destruct (decide (files w1 !! q = files w !! q)) as [Hsame|Hdiff].
  - right. apply Hchanged'. by rewrite Hsame.
  - left. by apply Hchanged.
Qed.

Lemma write_only_for_each {A B} (body : B → A → io B) (l : list A) (acc : B) :
  (∀ acc x, write_only (body acc x)) → write_only (for_each body acc l).
Proof.
  intros Hbody. revert acc. induction l as [|x l IH]; intros acc; simpl.
  - apply (write_only_ret acc).
  - apply (write_only_bind (body acc x)); [apply Hbody|]. intros acc'. apply IH.
Qed.

(** *** Reads, then writes *)

Lemma writes_last_read_only {A} (m : io A) : read_only m → writes_last m.
Proof.
  intros Hm w. destruct (Hm w) as (Hfiles & reads & Hevents & Hreads).
  exists reads, []. rewrite app_nil_r. split; [done|]. split; [done|].
  split; [done|]. intros q Hq. destruct Hq. by rewrite Hfiles.
Qed.

Lemma writes_last_write_only {A} (m : io A) : write_only m → writes_last m.
Proof.
  intros Hm w. destruct (Hm w) as (writes & Hevents & Hwrites & Hchanged).
  by exists [], writes.
Qed.

Lemma writes_last_bind {A B} (m : io A) (k : A → io B) :
  read_only m → (∀ a, writes_last (k a)) → writes_last (m ≫= k).
Proof.
  intros Hm Hk w. unfold mbind, io_mbind, io_bind.
  destruct (Hm w) as (Hfiles & reads & Hevents & Hreads).
  destruct (m w) as [[a|e] w1]; simpl in *.
  - destruct (Hk a w1)
      as (reads' & writes & Hevents' & Hreads' & Hwrites & Hchanged).
    exists (reads ++ reads'), writes.
    rewrite Hevents', Hevents, !app_assoc. split; [done|].
    split; [by apply Forall_app|]. split; [done|].
    intros q Hq. apply Hchanged. by rewrite Hfiles.
  - exists reads, []. rewrite app_nil_r. split; [done|]. split; [done|].
    split; [done|]. intros q Hq. destruct Hq. by rewrite Hfiles.
Qed.

(** A handler that touches nothing, as [sys.exit(1)]. *)
Lemma try_except_world {A} (body : io A) (handler : exn → io A) (w : world) :
  (∀ e w', (handler e w').2 = w') →
  (try_except body handler w).2 = (body w).2.
Proof.
  intros Hhandler. unfold try_except.
  destruct (body w) as [[a|e] w1]; [done|].
  destruct (is_Exception e); [apply Hhandler|done].
Qed.

(** An event is a read or a write, not both: writes that follow reads in a
    trace of reads are none. *)
Lemma no_writes_among_reads (reads writes all : list event) :
  reads ++ writes = all →
  Forall (λ e, is_read e = true) all →
  Forall (λ e, is_write e = true) writes →
  writes = [].
Proof.
  intros <- [_ Hall]%Forall_app Hwrites.
  destruct writes as [|[p|p] writes]; [done| |].
  - by apply Forall_cons in Hwrites as [? _].
  - by apply Forall_cons in Hall as [? _].
Qed.

(** *** Outcomes that depend on the files only *)

Lemma reads_files_ret {A} (a : A) : reads_files (mret a : io A).
Proof. by intros w1 w2 _. Qed.

Lemma reads_files_raise {A} (e : exn) : reads_files (raise e : io A).
Proof. by intros w1 w2 _. Qed.

Lemma reads_files_read_file (p : path) : reads_files (read_file p).
Proof.
  intros w1 w2 Hfiles. unfold read_file. rewrite Hfiles.
  by destruct (files w2 !! p) as [[|[text|]]|].
Qed.

Lemma reads_files_bind {A B} (m : io A) (k : A → io B) :
  read_only m → reads_files m → (∀ a, reads_files (k a)) →
  reads_files (m ≫= k).
Proof.
  intros Hro Hm Hk w1 w2 Hfiles. unfold mbind, io_mbind, io_bind.
  pose proof (Hm w1 w2 Hfiles) as Hsame.
  destruct (Hro w1) as [Hfiles1 _], (Hro w2) as [Hfiles2 _].
  destruct (m w1) as [r1 w1'], (m w2) as [r2 w2']; simpl in *. subst r2.
  destruct r1 as [a|e]; [|done]. apply Hk. congruence.
Qed.

Section Run.
Variable parse : string → option node.
Variable unparse : node → string.
Variable find_git_root : path → option path.
Variable fnmatch : string → string → bool.
Variable home : path.
Variable json_load : string → option Config.json.
Variable json_dump : Config.json → string.

Abbreviation the_run := (run parse unparse find_git_root).
Abbreviation the_try_block := (try_block parse unparse find_git_root).
Abbreviation the_cli :=
  (cli parse unparse find_git_root fnmatch home json_load json_dump).
Abbreviation the_store := (Config.CONFIG_FILE home).

Lemma read_only_analyze_file (p : path) : read_only (analyze_file parse p).
Proof.
  apply read_only_bind; [apply read_only_read_file|]. intros source.
  destruct (parse source); [apply read_only_ret | apply read_only_raise].
Qed.

Lemma read_only_transform_file (p : path) (variables : list Variable_) :
  read_only (transform_file parse unparse p variables).
Proof.
  apply read_only_bind; [apply read_only_read_file|]. intros source.
  destruct (parse source); [apply read_only_ret | apply read_only_raise].
Qed.

Lemma read_only_analyze_imports (p : path) (tm : string) (cv : gset string) :
  read_only (analyze_imports parse p tm cv).
Proof.
  apply read_only_bind; [apply read_only_read_file|]. intros source.
  destruct (parse source); apply read_only_ret.
Qed.

Lemma read_only_update_usage_file (p target root : path) (cv : gset string) :
  read_only (update_usage_file parse unparse p target root cv).
Proof.
  unfold update_usage_file.
  destruct (no_module _); [apply read_only_ret|].
  apply read_only_bind; [apply read_only_read_file|]. intros source.
  apply read_only_bind; [apply read_only_analyze_imports|].
  intros [imports star_warnings].
  destruct (_ && _); [apply read_only_ret|].
  destruct (parse source) as [tree|]; [|apply read_only_ret].
  destruct (transform_usages _ _ _) as [new_tree updates].
  destruct (bool_decide _); apply read_only_ret.
Qed.

Lemma read_only_scan_module (target : path) :
  read_only (scan_module find_git_root target).
Proof.
  apply read_only_bind; [apply read_only_get_files|]. intros fs.
  destruct (Scanner.find_module_root _ _ _);
    [apply read_only_ret | apply read_only_raise].
Qed.

Lemma read_only_usage_loop_body (target root : path) (cv : gset string)
    acc (py_file : path) :
  read_only (usage_loop_body parse unparse target root cv acc py_file).
Proof.
  unfold usage_loop_body. destruct acc as [files_to_update star_warnings].
  destruct (bool_decide _); [apply read_only_ret|].
  apply read_only_bind; [apply read_only_update_usage_file|].
  intros [[new_source updates] warnings]. apply read_only_ret.
Qed.

Lemma read_only_sys_exit {A} (code : nat) : read_only (sys_exit code : io A).
Proof. apply read_only_raise. Qed.

(** The writes of [run]: the target, then the files to update. *)
Lemma write_only_write_phase (target : path) (text : string)
    (files_to_update : list (path * string)) :
  write_only
    (write_file target text;;
     for_each (fun _ '(file_path, new_source) =>
                 write_file file_path new_source) tt files_to_update).
Proof.
  apply write_only_bind; [apply write_only_write_file|]. intros _.
  apply write_only_for_each. intros [] [file_path new_source].
  apply write_only_write_file.
Qed.

(** The [try] block: the target and the other files are analysed first; the
    writes are the last thing it does. *)
Lemma writes_last_run (args : arguments) : writes_last (the_run args).
Proof.
  unfold run.
  apply writes_last_bind; [apply read_only_analyze_file|].
  intros [variables skipped].
  destruct (_ && _); [apply writes_last_read_only, read_only_sys_exit|].
  apply writes_last_bind; [apply read_only_scan_module|].
  intros [module_root python_files].
  apply writes_last_bind.
  { apply read_only_for_each. intros acc py_file.
    apply read_only_usage_loop_body. }
  intros [files_to_update star_warnings].
  destruct (apply args); [|apply writes_last_read_only, read_only_ret].
  apply writes_last_bind; [apply read_only_transform_file|].
  intros transformed_source. apply writes_last_write_only.
  apply write_only_write_phase.
Qed.

(** Without [--apply] the [try] block only reads. *)
Lemma read_only_dry_run (args : arguments) :
  apply args = false → read_only (the_run args).
Proof.
  intros Hdry. unfold run.
  apply read_only_bind; [apply read_only_analyze_file|].
  intros [variables skipped].
  destruct (_ && _); [apply read_only_sys_exit|].
  apply read_only_bind; [apply read_only_scan_module|].
  intros [module_root python_files].
  apply read_only_bind.
  { apply read_only_for_each. intros acc py_file.
    apply read_only_usage_loop_body. }
  intros [files_to_update star_warnings].
  rewrite Hdry. apply read_only_ret.
Qed.

Lemma try_block_world (args : arguments) (w : world) :
  (the_try_block args w).2 = (the_run args w).2.
Proof. by apply try_except_world. Qed.

(** *** The loop over the files in scope *)

Lemma reads_files_update_usage_file (p target root : path)
    (cv : gset string) :
  reads_files (update_usage_file parse unparse p target root cv).
Proof.
  unfold update_usage_file.
  destruct (no_module _); [apply reads_files_ret|].
  apply reads_files_bind;
    [apply read_only_read_file | apply reads_files_read_file |].
  intros source.
  apply reads_files_bind.
  { apply read_only_analyze_imports. }
  { apply reads_files_bind;
      [apply read_only_read_file | apply reads_files_read_file |].
    intros text. destruct (parse text); apply reads_files_ret. }
  intros [imports star_warnings].
  destruct (_ && _); [apply reads_files_ret|].
  destruct (parse source) as [tree|]; [|apply reads_files_ret].
  destruct (transform_usages _ _ _) as [new_tree updates].
  destruct (bool_decide _); apply reads_files_ret.
Qed.

Section Loop.
Variables (target root : path) (var_names : gset string).

Abbreviation body :=
  (usage_loop_body parse unparse target root var_names).

Lemma usage_loop_body_step files_to_update star_warnings (py_file : path)
    (w : world) :
  (body (files_to_update, star_warnings) py_file w).1
  = if bool_decide (py_file = target) then
      Ok (files_to_update, star_warnings)
    else
      match usage_result parse unparse (files w) target root var_names
              py_file with
      | Ok (new_source, updates, warnings) =>
          Ok (match new_source with
              | Some text =>
                  if bool_decide (text = "") then files_to_update
                  else dict_set files_to_update py_file text
              | None => files_to_update
              end,
              star_warnings ++ mjoin (replicate (length warnings) warnings))
      | Raise e => Raise e
      end.
Proof.
  unfold usage_loop_body. case_bool_decide as Htarget; [done|].
  unfold usage_result.
  rewrite <- (reads_files_update_usage_file py_file target root var_names
                w (on_files (files w)) eq_refl).
  unfold mbind, io_mbind, io_bind.
  by destruct (update_usage_file _ _ _ _ _ _ w)
    as [[[[new_source ups] ws]|e] w'].
Qed.

Lemma usage_result_raise_iff (fs : filesystem) (py_file : path) (e : exn) :
  usage_result parse unparse fs target root var_names py_file = Raise e
  ↔ e = OSError
    ∧ no_module (get_module_name_from_file target root) = false
    ∧ ∀ text, fs !! py_file ≠ Some (File (Some text)).
Proof.
  unfold usage_result, update_usage_file.
  destruct (no_module _); [split; [done|by intros (_ & ? & _)]|].
  unfold mbind, io_mbind, io_bind, analyze_imports, read_file. simpl.
  destruct (fs !! py_file) as [[|[text|]]|] eqn:Hfile; simpl;
    try (split; [by intros [= <-] | by intros (-> & _)]).
  unfold mbind, io_mbind, io_bind. simpl. rewrite Hfile.
  split.
  - destruct (parse text) as [tree|]; simpl; [|done].
    destruct (analyze_imports_tree _ _ tree) as [imports star_warnings].
    destruct (_ && _); [done|].
    destruct (transform_usages imports var_names tree) as [new_tree updates].
    by case_bool_decide.
  - intros (_ & _ & Hno). by destruct (Hno text).
Qed.

Lemma usage_result_raises (fs : filesystem) (py_file : path) (e : exn) :
  usage_result parse unparse fs target root var_names py_file = Raise e →
  e = OSError.
Proof. by intros (-> & _)%usage_result_raise_iff. Qed.

(** The loop raises exactly when one of the files cannot be read. *)
Lemma usage_loop_raises (l : list path) acc (w : world) (e : exn) :
  (for_each body acc l w).1 = Raise e →
  e = OSError
  ∧ ∃ p, p ∈ l ∧ p ≠ target
         ∧ usage_result parse unparse (files w) target root var_names p
           = Raise OSError.
Proof.
  revert acc w.
  induction l as [|x l IH]; intros [ftu sw] w; cbn [for_each]; [done|].
  unfold io_bind.
  pose proof (usage_loop_body_step ftu sw x w) as Hstep.
  destruct (read_only_usage_loop_body target root var_names
              (ftu, sw) x w) as [Hfiles _].
  destruct (body (ftu, sw) x w) as [[acc1|e1] w1]; simpl in *.
  - intros Hloop. destruct (IH acc1 w1 Hloop) as (-> & p & Hp & Hne & Hraise).
    split; [done|]. exists p. rewrite <- Hfiles.
    split; [by apply list_elem_of_further|done].
  - intros [= <-]. revert Hstep. case_bool_decide as Hx; [done|].
    destruct (usage_result _ _ _ _ _ _ x) as [[[ns ups] ws]|e] eqn:Hres;
      [done|].
    intros [= ->]. pose proof (usage_result_raises _ _ _ Hres) as ->.
    split; [done|]. exists x. split; [by apply list_elem_of_here|done].
Qed.

Lemma usage_loop_unreadable (l : list path) acc (w : world) (p : path) :
  p ∈ l → p ≠ target →
  usage_result parse unparse (files w) target root var_names p
  = Raise OSError →
  (for_each body acc l w).1 = Raise OSError.
Proof.
  intros Hp Hne. revert acc w.
  induction l as [|x l IH]; intros [ftu sw] w Hraise; cbn [for_each];
    [by apply elem_of_nil in Hp|].
  unfold io_bind.
  pose proof (usage_loop_body_step ftu sw x w) as Hstep.
  destruct (read_only_usage_loop_body target root var_names
              (ftu, sw) x w) as [Hfiles _].
  destruct (body (ftu, sw) x w) as [[acc1|e1] w1]; simpl in *.
  - apply elem_of_cons in Hp as [->|Hp].
    + revert Hstep. rewrite bool_decide_eq_false_2 by done.
      by rewrite Hraise.
    + apply IH; [done|]. by rewrite Hfiles.
  - revert Hstep. case_bool_decide as Hx; [done|].
    destruct (usage_result _ _ _ _ _ _ x) as [[[ns ups] ws]|e] eqn:Hres;
      [done|].
    intros [= ->]. by rewrite (usage_result_raises _ _ _ Hres).
Qed.

(** A loop that returns has read every file. *)
Lemma usage_loop_returns (l : list path) acc (w : world) acc' :
  (for_each body acc l w).1 = Ok acc' →
  no_module (get_module_name_from_file target root) = false →
  ∀ p, p ∈ l → p ≠ target → ∃ text, files w !! p = Some (File (Some text)).
Proof.
  intros Hloop Hmodule p Hp Hne.
  destruct (files w !! p) as [[|[text|]]|] eqn:Hfile; [|by eauto|..];
    rewrite (usage_loop_unreadable l acc w p Hp Hne) in Hloop; try done;
    apply usage_result_raise_iff; rewrite Hfile;
    (split; [done|]); (split; [done|]); by intros text.
Qed.

End Loop.

(** *** The steps of the [try] block *)

Lemma analyze_file_run (p : path) (w : world) :
  analyze_file parse p w
  = (match files w !! p with
     | Some (File (Some text)) =>
         match parse text with
         | Some tree => Ok (analyze_tree text tree)
         | None => Raise ValueError
         end
     | _ => Raise OSError
     end, logged (Read p) w).
Proof.
  unfold analyze_file, mbind, io_mbind, io_bind, read_file.
  destruct (files w !! p) as [[|[text|]]|]; try done.
  by destruct (parse text).
Qed.

Lemma transform_file_run (p : path) (variables : list Variable_)
    (w : world) :
  transform_file parse unparse p variables w
  = (match files w !! p with
     | Some (File (Some text)) =>
         match parse text with
         | Some tree =>
             Ok (unparse
                   (FixLocations.fix_missing_locations
                      (transform_tree (list_to_set (name <$> variables))
                         tree)))
         | None => Raise SyntaxError
         end
     | _ => Raise OSError
     end, logged (Read p) w).
Proof.
  unfold transform_file, mbind, io_mbind, io_bind, read_file.
  destruct (files w !! p) as [[|[text|]]|]; try done.
  by destruct (parse text).
Qed.

Lemma run_steps (args : arguments) (w : world) :
  the_run args w
  = match files w !! target_file args with
    | Some (File (Some text)) =>
        match parse text with
        | Some tree =>
            let '(variables, skipped) := analyze_tree text tree in
            let w1 := logged (Read (target_file args)) w in
            if bool_decide (variables = []) && bool_decide (skipped = [])
            then (Raise (SystemExit 0), w1)
            else
              match Scanner.find_module_root (files w)
                      (find_git_root (parent (target_file args)))
                      (target_file args) with
              | Some root =>
                  after_analysis parse unparse args variables root
                    (find_python_files (files w) root) w1
              | None => (Raise RuntimeError, w1)
              end
        | None => (Raise ValueError, logged (Read (target_file args)) w)
        end
    | _ => (Raise OSError, logged (Read (target_file args)) w)
    end.
Proof.
  unfold run. unfold mbind at 1. unfold io_mbind, io_bind.
  rewrite analyze_file_run.
  destruct (files w !! target_file args) as [[|[text|]]|]; try done.
  destruct (parse text) as [tree|]; [|done].
  destruct (analyze_tree text tree) as [variables skipped].
  destruct (_ && _); [done|].
  unfold mbind at 1. unfold io_mbind, io_bind, scan_module.
  unfold mbind at 1. unfold io_mbind, io_bind, get_files. simpl.
  by destruct (Scanner.find_module_root _ _ _).
Qed.

(** What the two loops do: the first only reads; when it returns and the run
    has [--apply], the target is read once more and the writes follow. *)
Lemma after_analysis_steps (args : arguments) (variables : list Variable_)
    (root : path) (python_files : list path) (w : world) :
  let var_names : gset string := list_to_set (name <$> variables) in
  let loop :=
    for_each (usage_loop_body parse unparse (target_file args) root var_names)
      ([], []) python_files w in
  after_analysis parse unparse args variables root python_files w
  = match loop.1 with
    | Ok (files_to_update, _) =>
        if apply args then
          match (transform_file parse unparse (target_file args) variables
                   loop.2).1 with
          | Ok transformed_source =>
              (write_file (target_file args) transformed_source;;
               for_each (fun _ '(file_path, new_source) =>
                           write_file file_path new_source) tt
                 files_to_update)
                (logged (Read (target_file args)) loop.2)
          | Raise e => (Raise e, logged (Read (target_file args)) loop.2)
          end
        else (Ok tt, loop.2)
    | Raise e => (Raise e, loop.2)
    end.
Proof.
  intros var_names loop. unfold after_analysis.
  unfold mbind at 1. unfold io_mbind, io_bind.
  fold var_names. fold loop.
  destruct loop as [[[ftu sw]|e] w2]; simpl; [|done].
  destruct (apply args); [|done].
  unfold mbind at 1. unfold io_mbind, io_bind.
  rewrite transform_file_run. simpl.
  destruct (files w2 !! target_file args) as [[|[text|]]|]; try done.
Qed.

(** A run of the [try] block either only reads, and then does not return
    if it has [--apply]; or it has [--apply], the target was analysed, the
    loop over the files in scope returned, and it ends with the writes. *)
Lemma run_cases (args : arguments) (w : world) :
  (files (the_run args w).2 = files w
   ∧ (∃ reads, events (the_run args w).2 = events w ++ reads
               ∧ Forall (λ e, is_read e = true) reads)
   ∧ (apply args = true → (the_run args w).1 ≠ Ok tt))
  ∨ (apply args = true
     ∧ ∃ text tree variables skipped root files_to_update star_warnings w3,
         files w !! target_file args = Some (File (Some text))
         ∧ parse text = Some tree
         ∧ analyze_tree text tree = (variables, skipped)
         ∧ Scanner.find_module_root (files w)
             (find_git_root (parent (target_file args))) (target_file args)
           = Some root
         ∧ (for_each
              (usage_loop_body parse unparse (target_file args) root
                 (list_to_set (name <$> variables)))
              ([], []) (find_python_files (files w) root)
              (logged (Read (target_file args)) w)).1
           = Ok (files_to_update, star_warnings)
         ∧ files w3 = files w
         ∧ (∃ reads, events w3 = events w ++ reads
                     ∧ Forall (λ e, is_read e = true) reads)
         ∧ the_run args w
           = (write_file (target_file args)
                (unparse
                   (FixLocations.fix_missing_locations
                      (transform_tree (list_to_set (name <$> variables))
                         tree)));;
              for_each (fun _ '(file_path, new_source) =>
                          write_file file_path new_source) tt
                files_to_update) w3).
Proof.
  rewrite run_steps.
  assert (∀ o : outcome unit, o ≠ Ok tt →
            files (o, logged (Read (target_file args)) w).2 = files w
            ∧ (∃ reads,
                  events (o, logged (Read (target_file args)) w).2
                  = events w ++ reads
                  ∧ Forall (λ e, is_read e = true) reads)
            ∧ (apply args = true →
               (o, logged (Read (target_file args)) w).1 ≠ Ok tt)) as Hone.
  { intros o Ho. split; [done|]. split; [|done].
    exists [Read (target_file args)]. split; [done|]. by repeat constructor. }
  destruct (files w !! target_file args) as [[|[text|]]|] eqn:Htarget;
    try (left; by apply Hone).
  destruct (parse text) as [tree|] eqn:Hparse; [|left; by apply Hone].
  destruct (analyze_tree text tree) as [variables skipped] eqn:Hfound.
  destruct (_ && _); [left; by apply Hone|].
  destruct (Scanner.find_module_root _ _ _) as [root|] eqn:Hroot;
    [|left; by apply Hone].
  rewrite after_analysis_steps. cbv zeta.
  set (w1 := logged (Read (target_file args)) w).
  set (var_names := list_to_set (name <$> variables) : gset string).
  destruct (read_only_for_each
              (usage_loop_body parse unparse (target_file args) root
                 var_names)
              (find_python_files (files w) root) ([], [])
              (read_only_usage_loop_body (target_file args) root var_names)
              w1) as (Hfiles & reads & Hevents & Hreads).
  destruct (for_each _ _ _ w1) as [[[ftu sw]|e] w2] eqn:Hloop; simpl in *.
  2: { left. split; [done|]. split; [|done].
       exists (Read (target_file args) :: reads).
       rewrite Hevents, <- app_assoc. split; [done|]. by apply Forall_cons. }
  destruct (apply args) eqn:Happly.
  2: { left. split; [done|]. split; [|done].
       exists (Read (target_file args) :: reads).
       simpl. rewrite Hevents, <- app_assoc. split; [done|].
       by apply Forall_cons. }
  rewrite transform_file_run. simpl. rewrite Hfiles, Htarget, Hparse.
  right. split; [done|].
  exists text, tree, variables, skipped, root, ftu, sw.
  exists (logged (Read (target_file args)) w2).
  split; [done|]. split; [done|]. split; [done|]. split; [done|].
  split; [exact (f_equal fst Hloop)|]. split; [done|]. split; [|done].
  exists (Read (target_file args) :: reads ++ [Read (target_file args)]).
  simpl. rewrite Hevents, <- !app_assoc. split; [done|].
  apply Forall_cons. split; [done|]. apply Forall_app. split; [done|].
  by repeat constructor.
Qed.

(** The order of a run of the [try] block, and what its writes suppose. *)
Lemma run_order (args : arguments) (w : world) :
  ∃ reads writes,
    events (the_run args w).2 = events w ++ reads ++ writes
    ∧ Forall (λ e, is_read e = true) reads
    ∧ Forall (λ e, is_write e = true) writes
    ∧ (∀ p, files (the_run args w).2 !! p ≠ files w !! p → Write p ∈ writes)
    ∧ (writes ≠ [] →
       apply args = true
       ∧ analysed parse find_git_root (files w) (target_file args)).
Proof.
  destruct (run_cases args w)
    as [(Hfiles & (reads & Hevents & Hreads) & _)
       |(Happly & text & tree & variables & skipped & root & ftu & sw & w3
         & Htarget & Hparse & Hfound & Hroot & Hloop & Hfiles
         & (reads & Hevents & Hreads) & ->)].
  - exists reads, []. rewrite app_nil_r. split; [done|]. split; [done|].
    split; [done|]. split; [|done].
    intros p Hp. destruct Hp. by rewrite Hfiles.
  - destruct (write_only_write_phase (target_file args)
                (unparse
                   (FixLocations.fix_missing_locations
                      (transform_tree (list_to_set (name <$> variables))
                         tree))) ftu w3)
      as (writes & Hevents' & Hwrites & Hchanged).
    exists reads, writes. rewrite Hevents', Hevents, app_assoc.
    split; [done|]. split; [done|]. split; [done|]. split.
    + intros p Hp. apply Hchanged. by rewrite Hfiles.
    + intros _. split; [done|]. exists text, tree, root.
      split; [done|]. split; [done|]. split; [done|]. intros Hmodule.
      by apply (usage_loop_returns (target_file args) root
                  (list_to_set (name <$> variables))
                  (find_python_files (files w) root) ([], [])
                  (logged (Read (target_file args)) w) (ftu, sw)).
Qed.

(** A fatal error on the target: the [try] block ends with exit status 1,
    after the one attempt to read the target. *)
Lemma try_block_fatal (args : arguments) (w : world) :
  target_fatal parse (files w) (target_file args) →
  the_try_block args w
  = (Raise (SystemExit 1), logged (Read (target_file args)) w).
Proof.
  unfold target_fatal, try_block, try_except. rewrite run_steps.
  destruct (files w !! target_file args) as [[|[text|]]|]; try done.
  by intros ->.
Qed.

(** *** The pattern store *)

Lemma store_only_ret {A} (a : A) : store_only the_store (mret a : io A).
Proof. intros w. split; [|done]. exists []. by rewrite app_nil_r. Qed.

Lemma store_only_lift {A} (o : outcome A) : store_only the_store (lift o).
Proof. intros w. split; [|done]. exists []. by rewrite app_nil_r. Qed.

Lemma store_only_get_files : store_only the_store get_files.
Proof. intros w. split; [|done]. exists []. by rewrite app_nil_r. Qed.

Lemma store_only_input_line : store_only the_store input_line.
Proof.
  intros w. unfold input_line.
  destruct (stdin w); (split; [|done]); exists []; by rewrite app_nil_r.
Qed.

Lemma store_only_bind {A B} (m : io A) (k : A → io B) :
  store_only the_store m → (∀ a, store_only the_store (k a)) →
  store_only the_store (m ≫= k).
Proof.
  intros Hm Hk w. unfold mbind, io_mbind, io_bind.
  destruct (Hm w) as ((accesses & Hevents & Haccesses) & Hfiles).
  destruct (m w) as [[a|e] w1]; simpl in *; [|by eauto].
  destruct (Hk a w1) as ((accesses' & Hevents' & Haccesses') & Hfiles').
  split.
  - exists (accesses ++ accesses').
    rewrite Hevents', Hevents, app_assoc. split; [done|]. by apply Forall_app.
  - intros p Hp. by rewrite Hfiles', Hfiles.
Qed.

Lemma store_only_load_config :
  store_only the_store (Config.load_config home json_load).
Proof.
  unfold Config.load_config.
  apply store_only_bind; [apply store_only_get_files|]. intros fs.
  destruct (negb _); [apply store_only_ret|].
  intros w. unfold read_file.
  destruct (files w !! the_store) as [[|[text|]]|]; simpl;
    (split; [|done]); exists [Read the_store]; (split; [done|]);
    repeat constructor; by left.
Qed.

Lemma store_only_make_dirs (above : path) (names : list string) :
  above ++ names `prefix_of` the_store →
  store_only the_store (Config.make_dirs above names).
Proof.
  revert above. induction names as [|dir_name rest IH]; intros above Hprefix.
  { apply store_only_ret. }
  assert ((above ++ [dir_name]) ++ rest `prefix_of` the_store) as Hnext.
  { by rewrite <- app_assoc. }
  assert (above ++ [dir_name] `prefix_of` the_store) as Hdir.
  { etrans; [|exact Hnext]. by apply prefix_app_r. }
  intros w. cbn [Config.make_dirs].
  destruct (files w !! (above ++ [dir_name])) as [[|text]|] eqn:Hentry.
  - by apply IH.
  - split; [|done]. exists []. by rewrite app_nil_r.
  - case_bool_decide.
    { split; [|done]. exists []. by rewrite app_nil_r. }
    destruct (IH (above ++ [dir_name]) Hnext
                (World (<[above ++ [dir_name] := Dir]> (files w)) (events w)
                   (stdin w) (unwritable w)))
      as (Hevents & Hfiles).
    split; [done|]. intros p Hp. rewrite Hfiles by done. simpl.
    apply lookup_insert_ne. by intros <-.
Qed.

Lemma store_only_write_store (text : string) :
  store_only the_store (write_file the_store text).
Proof.
  intros w. unfold write_file. split.
  - exists [Write the_store].
    destruct (refuses_write w _); simpl; (split; [done|]);
      repeat constructor; by right.
  - intros p Hp. destruct (refuses_write w _); simpl; [done|].
    apply lookup_insert_ne. by intros <-.
Qed.

Lemma store_only_save_config (config : Config.json) :
  store_only the_store (Config.save_config home json_dump config).
Proof.
  unfold Config.save_config.
  apply store_only_bind; [|intros _; apply store_only_write_store].
  apply store_only_make_dirs. simpl. by apply prefix_app_r.
Qed.

Lemma store_only_get_glob_pattern (pattern_override : option string) :
  store_only the_store
    (Config.get_glob_pattern home json_load json_dump pattern_override).
Proof.
  unfold Config.get_glob_pattern.
  destruct (Config.given pattern_override) as [override|].
  - apply store_only_bind; [apply store_only_load_config|]. intros config.
    apply store_only_bind; [apply store_only_lift|]. intros config'.
    apply store_only_bind; [apply store_only_save_config|]. intros _.
    apply store_only_ret.
  - apply store_only_bind; [apply store_only_load_config|]. intros config.
    apply store_only_bind; [apply store_only_lift|]. intros [].
    { apply store_only_lift. }
    apply store_only_bind; [apply store_only_input_line|]. intros line.
    apply store_only_bind; [apply store_only_lift|]. intros config'.
    apply store_only_bind; [apply store_only_save_config|]. intros _.
    apply store_only_ret.
Qed.

(** [cli] either ends before its [try] block, having touched nothing but
    the pattern store, or it is the [try] block on the world that the
    pattern store was left in. *)
Lemma cli_entry (command_line : outcome arguments) (w : world) :
  ∃ entry,
    (∃ accesses,
        events entry = events w ++ accesses
        ∧ Forall (λ e, e = Read the_store ∨ e = Write the_store) accesses)
    ∧ (∀ p, ¬ p `prefix_of` the_store → files entry !! p = files w !! p)
    ∧ (((the_cli command_line w).1 ≠ Ok tt
        ∧ (the_cli command_line w).2 = entry)
       ∨ ∃ args, command_line = Ok args
                 ∧ the_cli command_line w = the_try_block args entry).
Proof.
  remember (the_cli command_line w) as r eqn:Hr.
  assert (r.1 ≠ Ok tt → r.2 = w →
          ∃ entry,
            (∃ accesses,
                events entry = events w ++ accesses
                ∧ Forall (λ e, e = Read the_store ∨ e = Write the_store)
                    accesses)
            ∧ (∀ p, ¬ p `prefix_of` the_store →
                    files entry !! p = files w !! p)
            ∧ ((r.1 ≠ Ok tt ∧ r.2 = entry)
               ∨ ∃ args, command_line = Ok args
                         ∧ r = the_try_block args entry)) as Hstay.
  { intros Ho Hw. exists w. split; [exists []; by rewrite app_nil_r|].
    split; [done|]. by left. }
  unfold cli in Hr. unfold mbind at 1 in Hr.
  unfold io_mbind, io_bind, lift in Hr.
  destruct command_line as [args|e]; [|subst r; by apply Hstay].
  unfold mbind at 1 in Hr. unfold io_mbind, io_bind, get_files in Hr.
  destruct (negb (path_exists _ _)); [subst r; by apply Hstay|].
  destruct (negb (path_is_file _ _)); [subst r; by apply Hstay|].
  unfold mbind at 1 in Hr. unfold io_mbind, io_bind in Hr.
  destruct (store_only_get_glob_pattern (pattern args) w)
    as (Hevents & Hfiles).
  destruct (Config.get_glob_pattern _ _ _ _ w) as [[pattern|e] w1];
    simpl in *.
  2: { subst r. exists w1. split; [done|]. split; [done|]. by left. }
  unfold mbind at 1 in Hr. unfold io_mbind, io_bind, lift in Hr.
  destruct (Config.validate_pattern _ _ _) as [matches|e].
  2: { subst r. exists w1. split; [done|]. split; [done|]. by left. }
  destruct matches; simpl in Hr.
  - exists w1. split; [done|]. split; [done|]. right. by exists args.
  - subst r. exists w1. split; [done|]. split; [done|]. by left.
Qed.


End Run.


(** A run with [--apply] on the target of scenario A and the consuming file
    of scenario B: the saved pattern is read, then both files (the consuming
    file twice, the target again for the transform), then both are
    written. *)
Example apply_run :
  let w' := (example_cli (mkArgs config_py None true)
               (project config_text reader_text)).2 in
  events w'
  = [Read store; Read config_py; Read app_py; Read app_py; Read config_py;
     Write config_py; Write app_py]
  ∧ files w' !! config_py
    = Some (File (Some (lines ["def schema_name():";
                               "    return 'user_schema'"])))
  ∧ files w' !! app_py
    = Some (File (Some (lines ["from config import schema_name";
                               "print(schema_name())"]))).
Proof. repeat split; vm_compute; reflexivity. Qed.

(** A run with [--apply] on a target that does not parse: exit status 1
    after the one read of the target, and nothing written. *)
Example apply_run_on_syntax_error :
  let w := project "x = " reader_text in
  let r := example_cli (mkArgs config_py None true) w in
  r.1 = Raise (SystemExit 1)
  ∧ events r.2 = [Read store; Read config_py]
  ∧ files r.2 = files w.
Proof. repeat split; vm_compute; reflexivity. Qed.

End CliFacts.

(** * Further properties of the package *)

(** ** The scanner *)

Module ScannerMore.

Import Scanner UsageUpdater Engine StringFacts.

Lemma parent_prefix (p : path) : parent p `prefix_of` p.
Proof.
  unfold parent. destruct p as [|c p] using rev_ind; [done|].
  rewrite removelast_last. by apply prefix_app_r.
Qed.

Lemma prefix_parent (g p : path) :
  g `prefix_of` p → g ≠ p → g `prefix_of` parent p.
Proof.
  intros [k ->] Hne. unfold parent.
  destruct k as [|c k] using rev_ind; [by rewrite app_nil_r in Hne|].
  rewrite app_assoc, removelast_last. by apply prefix_app_r.
Qed.

Lemma climb_within fs git_root fuel module_root current_dir start r :
  module_root `prefix_of` start → current_dir `prefix_of` start →
  climb fs git_root fuel module_root current_dir = Some r →
  r `prefix_of` start.
Proof.
  revert module_root current_dir.
  induction fuel as [|fuel IH]; intros module_root current_dir Hm Hc; [done|].
  simpl. case_bool_decide; [by intros [= <-]|].
  case_bool_decide; [by intros [= <-]|].
  destruct (path_exists _ _); simpl; [|by intros [= <-]].
  apply IH; [done|]. etrans; [apply parent_prefix|done].
Qed.

Lemma root_above_target fs git_root target_path :
  ∃ r, find_module_root fs git_root target_path = Some r
       ∧ r `prefix_of` parent target_path.
Proof.
  destruct (ScannerFacts.find_module_root_returns fs git_root target_path)
    as [r Hr].
  exists r. split; [done|]. by eapply climb_within.
Qed.

(** [find_module_root] returns, and what it returns is the directory of the
    target or one of the directories above it. *)
Theorem find_module_root_above_target fs git_root target_path :
  ∃ r, find_module_root fs git_root target_path = Some r
       ∧ r `prefix_of` parent target_path.
Proof. apply root_above_target. Qed.

Lemma climb_below_git fs g fuel module_root current_dir r :
  g `prefix_of` module_root → g `prefix_of` current_dir →
  climb fs (Some g) fuel module_root current_dir = Some r →
  g `prefix_of` r.
Proof.
  revert module_root current_dir.
  induction fuel as [|fuel IH]; intros module_root current_dir Hm Hc; [done|].
  simpl. case_bool_decide; [by intros [= <-]|].
  case_bool_decide as Hgit; [by intros [= <-]|].
  destruct (path_exists _ _); simpl; [|by intros [= <-]].
  apply IH; [done|]. apply prefix_parent; [done|].
  intros Heq. apply Hgit. by rewrite Heq.
Qed.

(** When the directory of the target lies in the version-control root or
    below it, so does the module root: the climb never leaves the
    repository, whatever [__init__.py] files sit above it. *)
Theorem find_module_root_within_git fs (g : path) target_path r :
  g `prefix_of` parent target_path →
  find_module_root fs (Some g) target_path = Some r →
  g `prefix_of` r.
Proof. intros Hg. by apply climb_below_git. Qed.

Lemma find_module_root_within_git_witness :
  ["repo"] `prefix_of` ["repo"; "pkg"].
Proof.
  apply (find_module_root_within_git
           (<[ ["__init__.py"] := File (Some "") ]>
              (<[ ["repo"; "__init__.py"] := File (Some "") ]>
                 Examples.nested_fs))
           ["repo"] Examples.nested_target ["repo"; "pkg"]).
  - by exists ["pkg"; "sub"].
  - vm_compute. reflexivity.
Defined.

End ScannerMore.

(** ** Paths, module names and the files in scope *)

Module PathsMore.

Import Scanner UsageUpdater Engine StringFacts.

(** [relative_to] answers with the components below the root exactly for the
    paths that start with the root. *)
Lemma relative_to_Some (p root rel : path) :
  relative_to p root = Some rel ↔ p = root ++ rel.
Proof.
  revert p. induction root as [|r root IH]; intros p.
  - destruct p; simpl; (split; [by intros [= ->]|by intros ->]).
  - destruct p as [|c p]; simpl; [done|].
    case_bool_decide as Hc.
    + subst c. rewrite IH. split; [by intros ->|by intros [= ->]].
    + split; [done|]. intros [= ? _]. by destruct Hc.
Qed.

Lemma relative_to_None (p root : path) :
  relative_to p root = None ↔ ¬ root `prefix_of` p.
Proof.
  destruct (relative_to p root) as [rel|] eqn:Hrel.
  - apply relative_to_Some in Hrel as ->. split; [done|].
    intros Hnot. destruct Hnot. by exists rel.
  - split; [|done]. intros _ [rel ->].
    by rewrite (proj2 (relative_to_Some (root ++ rel) root rel) eq_refl)
      in Hrel.
Qed.

Lemma rfind_dot_append (a b : string) (i : nat) (last : option nat) :
  rfind_dot (a +:+ b) i last
  = rfind_dot b (i + String.length a) (rfind_dot a i last).
Proof.
  revert i last. induction a as [|c a IH]; intros i last.
  - simpl. by rewrite Nat.add_0_r.
  - rewrite append_cons. simpl. rewrite IH. f_equal. lia.
Qed.

Lemma substring_prefix (a b : string) :
  String.substring 0 (String.length a) (a +:+ b) = a.
Proof.
  induction a as [|c a IH]; [by destruct b|].
  rewrite append_cons. simpl. by rewrite IH.
Qed.

(** The stem of [base.py] is [base], whatever dots [base] holds. *)
Lemma stem_py (base : string) : base ≠ "" → stem (base +:+ ".py") = base.
Proof.
  intros Hbase. unfold stem.
  rewrite rfind_dot_append. simpl.
  assert (0 < String.length base) as Hpos by (destruct base; [done|simpl; lia]).
  rewrite length_append. simpl.
  replace (0 <? String.length base) with true
    by (symmetry; by apply Nat.ltb_lt).
  replace (String.length base <? String.length base + 3 - 1) with true
    by (symmetry; apply Nat.ltb_lt; lia).
  simpl. unfold slice. rewrite Nat.sub_0_r. apply substring_prefix.
Qed.

Lemma py_file_module_name (root dirs : path) (base : string) :
  base ≠ "" →
  get_module_name_from_file (root ++ dirs ++ [base +:+ ".py"]) root
  = Some (String.concat "." (dirs ++ [base])).
Proof.
  intros Hbase. unfold get_module_name_from_file.
  rewrite (proj2 (relative_to_Some _ root (dirs ++ [base +:+ ".py"])) eq_refl).
  unfold path_name. rewrite removelast_last, last_last.
  by rewrite (stem_py base Hbase).
Qed.

(** The module name of [root/d1/.../dn/base.py] seen from [root] is
    [d1. ... .dn.base]. *)
Theorem module_name_of_py_file (root dirs : path) (base : string) :
  base ≠ "" →
  get_module_name_from_file (root ++ dirs ++ [base +:+ ".py"]) root
  = Some (String.concat "." (dirs ++ [base])).
Proof. apply py_file_module_name. Qed.

Lemma module_name_of_py_file_witness :
  get_module_name_from_file ["proj"; "pkg"; "sub"; "my.fields.py"] ["proj"]
  = Some "pkg.sub.my.fields".
Proof.
  apply (module_name_of_py_file ["proj"] ["pkg"; "sub"] "my.fields").
  discriminate.
Defined.

(** A target gets no module name exactly when it does not lie under the
    module root. *)
Theorem module_name_None (target module_root : path) :
  get_module_name_from_file target module_root = None
  ↔ ¬ module_root `prefix_of` target.
Proof.
  unfold get_module_name_from_file. rewrite <- relative_to_None.
  by destruct (relative_to target module_root).
Qed.

Lemma concat_dots_nonempty (dirs : list string) (base : string) :
  base ≠ "" → String.concat "." (dirs ++ [base]) ≠ "".
Proof.
  intros Hbase. induction dirs as [|d dirs IH]; [done|].
  change ((d :: dirs) ++ [base]) with (d :: (dirs ++ [base])).
  destruct (dirs ++ [base]) as [|x rest] eqn:Hrest.
  { by destruct dirs. }
  change (String.concat "." (d :: x :: rest))
    with (d +:+ "." +:+ String.concat "." (x :: rest)).
  intros Hempty. apply (f_equal String.length) in Hempty.
  rewrite !length_append in Hempty. simpl in Hempty. lia.
Qed.

(** For a target [base.py] the root that [find_module_root] computes always
    gives the target a module name, and not the empty one: within a run,
    [update_usage_file] never takes its early exit for a target outside the
    module root. *)
Theorem target_has_module_name fs git_root (dir : path) (base : string) r :
  base ≠ "" →
  find_module_root fs git_root (dir ++ [base +:+ ".py"]) = Some r →
  no_module (get_module_name_from_file (dir ++ [base +:+ ".py"]) r) = false.
Proof.
  intros Hbase Hroot.
  destruct (ScannerMore.root_above_target fs git_root
              (dir ++ [base +:+ ".py"])) as (r' & Hr' & [dirs Hdirs]).
  rewrite Hroot in Hr'. injection Hr' as <-.
  unfold parent in Hdirs. rewrite removelast_last in Hdirs. subst dir.
  rewrite <- app_assoc, (py_file_module_name r dirs base Hbase). simpl.
  apply bool_decide_eq_false. by apply concat_dots_nonempty.
Qed.

Lemma target_has_module_name_witness :
  no_module
    (get_module_name_from_file Examples.nested_target ["repo"; "pkg"; "sub"])
  = false.
Proof.
  apply (target_has_module_name Examples.nested_fs None
           ["repo"; "pkg"; "sub"] "fields" ["repo"; "pkg"; "sub"]).
  - discriminate.
  - vm_compute. reflexivity.
Defined.

End PathsMore.

Module FilesMore.

Import UsageUpdater Engine StringFacts PathsMore.

Lemma map_is_fmap {A B} (f : A → B) (l : list A) : map f l = f <$> l.
Proof. induction l as [|x l IH]; [done|]. simpl. by rewrite IH. Qed.

Lemma below_iff (module_root p : path) :
  below module_root p = true ↔ ∃ rel, rel ≠ [] ∧ p = module_root ++ rel.
Proof.
  unfold below. destruct (relative_to p module_root) as [rel|] eqn:Hrel.
  - apply relative_to_Some in Hrel as ->. destruct rel as [|c rel].
    + split; [done|]. intros (rel & Hne & Heq).
      rewrite app_nil_r in Heq. apply (f_equal length) in Heq.
      rewrite length_app in Heq. destruct rel; [done|simpl in Heq; lia].
    + split; [|done]. intros _. by exists (c :: rel).
  - split; [done|]. intros (rel & _ & ->).
    by rewrite (proj2 (relative_to_Some _ module_root rel) eq_refl) in Hrel.
Qed.

Lemma excluded_iff (p : path) :
  excluded p = true ↔ ∃ dir_name, dir_name ∈ removelast p
                                  ∧ dir_name ∈ exclude_dirs.
Proof.
  unfold excluded. rewrite existsb_exists. split.
  - intros (d & Hd%list_elem_of_In & Hex%bool_decide_eq_true). eauto.
  - intros (d & Hd & Hex). exists d. split; [by apply list_elem_of_In|].
    by apply bool_decide_eq_true.
Qed.

Lemma python_files_listed (fs : filesystem) (module_root p : path) :
  NoDup (find_python_files fs module_root)
  ∧ (p ∈ find_python_files fs module_root ↔
     is_Some (fs !! p)
     ∧ (∃ rel, rel ≠ [] ∧ p = module_root ++ rel)
     ∧ endswith (path_name p) ".py" = true
     ∧ ∀ dir_name, dir_name ∈ removelast p → dir_name ∉ exclude_dirs).
Proof.
  unfold find_python_files. rewrite map_is_fmap. split.
  - apply NoDup_filter, NoDup_fst_map_to_list.
  - rewrite list_elem_of_filter, list_elem_of_fmap.
    rewrite <- below_iff.
    assert ((∃ kv, p = kv.1 ∧ kv ∈ map_to_list fs) ↔ is_Some (fs !! p))
      as ->.
    { split.
      - intros ([k v] & -> & Hkv%elem_of_map_to_list). by exists v.
      - intros [v Hv]. exists (p, v). split; [done|].
        by apply elem_of_map_to_list. }
    assert (excluded p = false ↔
            ∀ d, d ∈ removelast p → d ∉ exclude_dirs) as <-.
    { rewrite <- not_true_iff_false, excluded_iff. split.
      - intros Hnone d Hd Hex. apply Hnone. eauto.
      - intros Hclean (d & Hd & Hex). by apply (Hclean d). }
    rewrite !Is_true_true. rewrite <- not_true_iff_false. tauto.
Qed.

(** When a component of the module root itself carries an excluded name (a
    project that lives under a directory called [venv] or [node_modules],
    say), no file is in scope: the test looks at every directory above a
    file, also those above the module root. *)
Theorem find_python_files_excluded_root (fs : filesystem)
    (module_root : path) (dir_name : string) :
  dir_name ∈ module_root →
  dir_name ∈ exclude_dirs →
  find_python_files fs module_root = [].
Proof.
  intros Hroot Hex. apply elem_of_nil_inv. intros p Hp.
  apply python_files_listed in Hp
    as (_ & (rel & Hrel & ->) & _ & Hclean).
  apply (Hclean dir_name); [|done].
  destruct rel as [|c rel] using rev_ind; [done|].
  rewrite app_assoc, removelast_last. apply elem_of_app. by left.
Qed.

Lemma find_python_files_excluded_root_witness :
  find_python_files
    (<[ ["home"; "venv"; "proj"; "config.py"] := File (Some "x = 1") ]>
       (<[ ["home"; "venv"; "proj"; "app.py"] := File (Some "") ]> ∅))
    ["home"; "venv"; "proj"]
  = [].
Proof.
  apply (find_python_files_excluded_root _ _ "venv").
  - by apply list_elem_of_In; right; left.
  - vm_compute. reflexivity.
Defined.

End FilesMore.

(** ** The classifier, further *)

Module AnalyzerMore.

Import AstFacts Analyzer AnalyzerFacts StringFacts.

Lemma match_tail_iff (s : string) :
  match_tail s = true ↔
  ∃ core, (s = core ∨ s = core +:+ Unparse.newline)
          ∧ forallb is_word_char (String.list_ascii_of_string core) = true.
Proof.
  induction s as [|c s IH].
  - split; [|done]. intros _. exists "". split; [by left|done].
  - simpl. rewrite orb_true_iff, !andb_true_iff, IH. split.
    + intros [[Hc (core & Hs & Hcore)] | [Hlf ->%bool_decide_eq_true]].
      * exists (String c core). split.
        -- destruct Hs as [-> | ->]; [by left|by right].
        -- simpl. by rewrite Hc, Hcore.
      * exists "". apply bool_decide_eq_true in Hlf as ->.
        split; [by right|done].
    + intros (core & Hs & Hcore). destruct core as [|d core].
      * destruct Hs as [Hs | Hs]; [done|]. injection Hs as -> ->.
        right. split; by apply bool_decide_eq_true.
      * left. simpl in Hcore. apply andb_true_iff in Hcore as [Hd Hcore].
        destruct Hs as [Hs | Hs]; injection Hs as -> ->;
          (split; [done|]); exists core; split; auto.
Qed.

(** The naming rule accepts exactly the names made of a lowercase letter
    followed by lowercase letters, digits and underscores, and those names
    followed by a line feed ([$] also matches before a final line feed). *)
Theorem is_lowercase_snake_case_iff (name : string) :
  is_lowercase_snake_case name = true ↔
  ∃ c core,
    (name = String c core ∨ name = String c core +:+ Unparse.newline)
    ∧ is_lower c = true
    ∧ forallb is_word_char (String.list_ascii_of_string core) = true.
Proof.
  destruct name as [|c rest]; simpl.
  - split; [done|]. by intros (c & core & [?|?] & _).
  - rewrite andb_true_iff, match_tail_iff. split.
    + intros (Hc & core & Hrest & Hcore). exists c, core.
      split; [|done]. destruct Hrest as [-> | ->]; [by left|by right].
    + intros (d & core & Hname & Hd & Hcore).
      destruct Hname as [Hname | Hname]; injection Hname as -> ->;
        (split; [done|]); exists core; split; auto.
Qed.

Lemma snake_case_first_letter (name : string) :
  is_lowercase_snake_case name = true → startswith name "_" = false.
Proof.
  destruct name as [|c rest]; [done|]. simpl.
  intros [Hc _]%andb_true_iff.
  apply not_true_iff_false. intros [r Hr]%startswith_true.
  injection Hr as -> _. done.
Qed.

(** A name that passes the naming rule does not start with an underscore:
    the test for private variables that follows the rule in [analyze_file]
    never rejects anything. *)
Theorem snake_case_not_private (name : string) :
  is_lowercase_snake_case name = true → startswith name "_" = false.
Proof. apply snake_case_first_letter. Qed.

Lemma snake_case_not_private_witness : startswith "max_retries" "_" = false.
Proof. apply snake_case_not_private. reflexivity. Defined.

Lemma reported_variable_iff (source : string) (tree : node)
    (v : Variable_) :
  v ∈ (analyze_tree source tree).1 ↔
  ∃ id ctx name_loc value loc,
    subnode (Assign [Name id ctx name_loc] value loc) tree
    ∧ col_offset loc = Some 0
    ∧ is_lowercase_snake_case id = true
    ∧ v = mkVariable id (Ast.lineno loc) value
            (or_unknown (get_source_segment source value)).
Proof.
  rewrite analyze_tree_variables. split.
  - intros (n & Hn & (id & ctx & name_loc & value & loc & -> & Hcol & Hname
                      & _ & ->)%classify_variable_iff).
    eauto 10.
  - intros (id & ctx & name_loc & value & loc & Hn & Hcol & Hname & ->).
    eexists. split; [exact Hn|]. apply classify_variable_iff.
    do 5 eexists. split; [done|]. split; [done|]. split; [done|].
    split; [|done]. by apply snake_case_first_letter.
Qed.

(** The bindings that the analysis reports are those of the assignment
    nodes of the tree, at any depth, that start at column 0 and have one
    target, a name that passes the naming rule; the binding carries the
    name, the line of the statement, the value node and its text. *)
Theorem analyze_tree_variables_iff (source : string) (tree : node)
    (v : Variable_) :
  v ∈ (analyze_tree source tree).1 ↔
  ∃ id ctx name_loc value loc,
    subnode (Assign [Name id ctx name_loc] value loc) tree
    ∧ col_offset loc = Some 0
    ∧ is_lowercase_snake_case id = true
    ∧ v = mkVariable id (Ast.lineno loc) value
            (or_unknown (get_source_segment source value)).
Proof. apply reported_variable_iff. Qed.

(** The skipped patterns that the analysis reports are those of the
    assignment nodes at column 0 that have several targets ("multiple
    assignment") or one target that is a tuple ("tuple unpacking"); a list
    target, as in [[a, b] = value], is not reported. *)
Theorem analyze_tree_skipped_iff (source : string) (tree : node)
    (s : SkippedPattern) :
  s ∈ (analyze_tree source tree).2 ↔
  ∃ targets value loc,
    subnode (Assign targets value loc) tree
    ∧ col_offset loc = Some 0
    ∧ ((1 < length targets ∧ reason s = "multiple assignment")
       ∨ (∃ elts ctx l, targets = [Tuple elts ctx l]
                        ∧ reason s = "tuple unpacking"))
    ∧ skipped_lineno s = Ast.lineno loc
    ∧ Analyzer.source s
      = or_unknown (get_source_segment source (Assign targets value loc)).
Proof.
  unfold analyze_tree. simpl. rewrite list_elem_of_omap. split.
  - intros (f & (n & Hn%elem_of_walk & Hf)%list_elem_of_omap & Hs).
    destruct f as [|s']; [done|]. injection Hs as ->.
    destruct n as [| targets value loc | | | | | | | | | | | | |]; try done.
    simpl in Hf. case_bool_decide as Hcol; [|done]. simpl in Hf.
    exists targets, value, loc. split; [done|]. split; [done|].
    destruct (1 <? length targets) eqn:Hlen.
    + injection Hf as <-. apply Nat.ltb_lt in Hlen. simpl. eauto 10.
    + apply Nat.ltb_ge in Hlen.
      destruct targets as [|target [|? ?]]; [done| |simpl in Hlen; lia].
      destruct target; try done; [by repeat case_match|].
      injection Hf as <-. simpl. split; [|done]. right. eauto.
  - intros (targets & value & loc & Hn%elem_of_walk & Hcol & Hshape
            & Hline & Hsrc).
    exists (FoundSkipped s). split; [|done].
    apply list_elem_of_omap. eexists. split; [exact Hn|].
    simpl. rewrite bool_decide_true by done. simpl.
    destruct s as [sl sr ss]. simpl in *. subst sl ss.
    destruct Hshape as [[Hlen ->] | (elts & ctx & l & -> & ->)].
    + by apply Nat.ltb_lt in Hlen as ->.
    + done.
Qed.

End AnalyzerMore.

(** ** The declaration rewriter, further *)

Module TransformerMore.

Import AstFacts NodeTransformer FixLocations Analyzer Transformer Engine.
Import Notions AnalyzerFacts AnalyzerMore TransformerFacts.

Section Identity.
Context {St : Type}.
Variable method : node → St → option (node * St).

Lemma thread_fixed {A} (f : A → St → A * St) (l : list A) (st : St) :
  Forall (λ x, ∀ st, f x st = (x, st)) l → thread f l st = (l, st).
Proof.
  induction 1 as [|x l Hx _ IH]; simpl; [done|]. by rewrite Hx, IH.
Qed.

Lemma thread_option_fixed {A} (f : A → St → A * St) (o : option A) (st : St) :
  Forall (λ x, ∀ st, f x st = (x, st)) (option_list o) →
  thread_option f o st = (o, st).
Proof.
  destruct o as [x|]; simpl; [|done]. intros [Hx _]%Forall_cons.
  by rewrite Hx.
Qed.

(** A transformer whose methods return every node of a tree as it is (or
    leave it to [generic_visit]) returns the tree as it is. *)
Lemma visit_fixed (n : node) :
  (∀ d st, subnode d n → method d st = None ∨ method d st = Some (d, st)) →
  ∀ st, visit method n st = (n, st).
Proof.
  induction n as [n IH] using node_children_ind. intros Hmethod st.
  assert (Forall (λ c, ∀ st, visit method c st = (c, st))
            (iter_child_nodes n)) as Hkids.
  { apply Forall_forall. intros c Hc.
    rewrite Forall_forall in IH. apply (IH c Hc).
    intros d st' Hd. apply Hmethod. by econstructor. }
  clear IH.
  destruct (Hmethod n st (subnode_refl n)) as [Hm | Hm];
    [|destruct n; simpl; by rewrite Hm].
  destruct n; simpl in Hkids |- *; rewrite Hm;
    repeat (rewrite Forall_cons in Hkids || rewrite Forall_app in Hkids);
    destruct_and?;
    repeat match goal with
    | H : Forall _ (omap id ?l) |- _ =>
        apply (VisitFacts.Forall_omap_option _
                 (λ o, ∀ st, thread_option (visit method) o st = (o, st)) l
                 (λ o Ho st, thread_option_fixed (visit method) o st Ho))
          in H
    | H : Forall _ ?l |- context [thread (visit method) ?l ?s] =>
        rewrite (thread_fixed (visit method) l s H)
    | H : Forall _ (option_list ?o)
      |- context [thread_option (visit method) ?o ?s] =>
        rewrite (thread_option_fixed (visit method) o s H)
    | H : Forall _ ?l
      |- context [thread (thread_option (visit method)) ?l ?s] =>
        rewrite (thread_fixed (thread_option (visit method)) l s H)
    | H : ∀ st, visit method ?x st = (?x, st)
      |- context [visit method ?x ?s] => rewrite (H s)
    end; done.
Qed.

End Identity.

Lemma transform_tree_empty (tree : node) :
  transform_tree ∅ tree = tree.
Proof.
  unfold transform_tree. rewrite visit_fixed; [done|].
  intros d st _. destruct d; try by left. right. simpl.
  case_bool_decide; simpl; [|done].
  destruct (length targets =? 1); simpl; [|done].
  destruct targets as [|[] ?]; done.
Qed.

(** With no name to convert the transformer returns the tree as it is. *)
Theorem transform_tree_nothing_to_convert (tree : node) :
  transform_tree ∅ tree = tree.
Proof. apply transform_tree_empty. Qed.

(** The analysis and the transform agree on a parsed file. With the names
    that the analysis reports as the set to convert, a node of the tree that
    the analysis turns into a binding becomes the function definition that
    [create_function_node] builds for that binding, and any other assignment
    node is returned as it is. *)
Theorem transform_converts_reported_bindings (source : string) (tree : node)
    (n : node) (count : nat) :
  let var_names : gset string :=
    list_to_set (name <$> (analyze_tree source tree).1) in
  subnode n tree →
  match classify source n with
  | Some (FoundVariable v) =>
      visit (visit_Assign var_names) n count
      = (create_function_node v, S count)
  | _ =>
      ∀ r, visit_Assign var_names n count = Some r → r = (n, count)
  end.
Proof.
  intros var_names Hn. subst var_names.
  destruct (classify source n) as [[v|s]|] eqn:Hclass.
  - assert (v ∈ (analyze_tree source tree).1) as Hv
      by (apply analyze_tree_variables; eauto).
    apply classify_variable_iff in Hclass
      as (id & ctx & name_loc & value & loc & -> & Hcol & _ & _ & ->).
    rewrite visit_converts; [done|done|].
    apply elem_of_list_to_set, list_elem_of_fmap.
    eexists. split; [|exact Hv]. done.
  - intros r Hr.
    pose proof (visit_skipped
                  (list_to_set (name <$> (analyze_tree source tree).1))
                  _ _ _ count Hclass) as Hsame.
    apply classify_skipped_inv in Hclass as (? & ? & ? & -> & _).
    simpl in Hsame, Hr. by rewrite Hr in Hsame.
  - destruct n as [| targets value loc | | | | | | | | | | | | |]; try done.
    simpl. case_bool_decide as Hcol; simpl; [|by intros r [= <-]].
    destruct (length targets =? 1) eqn:Hlen; simpl; [|by intros r [= <-]].
    destruct targets as [|target rest]; [by intros r [= <-]|].
    destruct target; try by intros r [= <-].
    case_bool_decide as Hin; [|by intros r [= <-]].
    (* a converted name passes the naming rule, so this node is a binding *)
    apply elem_of_list_to_set, list_elem_of_fmap in Hin as (v & Hid & Hv).
    apply reported_variable_iff in Hv
      as (id' & ? & ? & ? & ? & _ & _ & Hname & ->).
    simpl in Hid. subst id'.
    apply Nat.eqb_eq in Hlen. destruct rest; [|done].
    simpl in Hclass. rewrite bool_decide_true in Hclass by done.
    simpl in Hclass. rewrite Hname in Hclass. simpl in Hclass.
    by rewrite (snake_case_first_letter _ Hname) in Hclass.
Qed.

Lemma transform_converts_reported_bindings_witness :
  visit (visit_Assign
           (list_to_set
              (name <$> (analyze_tree Examples.shadowed_text
                           Examples.shadowed_tree).1)))
    (Assign [Name "y" Store (parsed_at 2 0 2 1)]
       (Constant (CInt 3) (parsed_at 2 4 2 5)) (parsed_at 2 0 2 5)) 1
  = (create_function_node
       (mkVariable "y" (Some 2) (Constant (CInt 3) (parsed_at 2 4 2 5)) "3"),
     2).
Proof.
  apply (transform_converts_reported_bindings Examples.shadowed_text
           Examples.shadowed_tree
           (Assign [Name "y" Store (parsed_at 2 0 2 1)]
              (Constant (CInt 3) (parsed_at 2 4 2 5)) (parsed_at 2 0 2 5)) 1).
  eapply subnode_child; [|apply subnode_refl]. simpl.
  by do 2 right; left.
Defined.

(** When the analysis finds skipped patterns only, [--apply] still rewrites
    the target: [transform_file] with no variables returns the rendering of
    the parsed tree, unchanged, so comments and layout are lost although
    nothing is converted. *)
Theorem transform_file_without_variables parse unparse (file_path : path)
    (w : world) (text : string) (tree : node) :
  files w !! file_path = Some (File (Some text)) →
  parse text = Some tree →
  fully_located tree = true →
  (transform_file parse unparse file_path [] w).1 = Ok (unparse tree).
Proof.
  intros Hfile Hparse Hloc. unfold transform_file, mbind, io_mbind, io_bind.
  rewrite (UsageFacts.read_file_text _ _ _ Hfile), Hparse. simpl.
  rewrite transform_tree_empty.
  unfold fix_missing_locations. by rewrite fix_node_located.
Qed.

Lemma transform_file_without_variables_witness :
  (transform_file Examples.example_parse Unparse.unparse Examples.config_py []
     (Examples.project Examples.unpacking_text Examples.reader_text)).1
  = Ok (Unparse.unparse Examples.unpacking_tree).
Proof.
  apply (transform_file_without_variables _ _ _ _ Examples.unpacking_text).
  - vm_compute. reflexivity.
  - vm_compute. reflexivity.
  - vm_compute. reflexivity.
Defined.

End TransformerMore.

(** ** The usage rewriter, further *)

Module UsageMore.

Import AstFacts NodeTransformer FixLocations UsageUpdater Engine Notions.
Import StringFacts UsageFacts.

Section Rewriter.
Variable imports : gmap string ImportInfo.
Variable converted_vars : gset string.

Abbreviation method := (usage_method imports converted_vars).

Lemma thread_sizes (l : list node) (st : list UsageUpdate) :
  Forall (λ n, ∀ st,
            node_size (visit method n st).1 + length st
            = node_size n + length (visit method n st).2) l →
  sum_list (map node_size (thread (visit method) l st).1) + length st
  = sum_list (map node_size l) + length (thread (visit method) l st).2.
Proof.
  intros Hl. revert st. induction Hl as [|x l Hx _ IH]; intros st; [done|].
  simpl. specialize (Hx st). destruct (visit method x st) as [x' st1].
  specialize (IH st1). destruct (thread (visit method) l st1) as [l' st2].
  simpl in *. lia.
Qed.

Lemma thread_option_sizes (o : option node) (st : list UsageUpdate) :
  Forall (λ n, ∀ st,
            node_size (visit method n st).1 + length st
            = node_size n + length (visit method n st).2) (option_list o) →
  from_option node_size 0 (thread_option (visit method) o st).1 + length st
  = from_option node_size 0 o
    + length (thread_option (visit method) o st).2.
Proof.
  destruct o as [x|]; simpl; [|done]. intros [Hx _]%Forall_cons.
  specialize (Hx st). by destruct (visit method x st).
Qed.

Lemma thread_options_sizes (l : list (option node)) (st : list UsageUpdate) :
  Forall (λ n, ∀ st,
            node_size (visit method n st).1 + length st
            = node_size n + length (visit method n st).2) (omap id l) →
  sum_list (map (from_option node_size 0)
              (thread (thread_option (visit method)) l st).1) + length st
  = sum_list (map (from_option node_size 0) l)
    + length (thread (thread_option (visit method)) l st).2.
Proof.
  revert st. induction l as [|o l IH]; intros st Hl; [done|].
  simpl.
  assert (Forall (λ n, ∀ st,
                    node_size (visit method n st).1 + length st
                    = node_size n + length (visit method n st).2)
            (option_list o)
          ∧ Forall (λ n, ∀ st,
                      node_size (visit method n st).1 + length st
                      = node_size n + length (visit method n st).2)
              (omap id l)) as [Ho Hrest].
  { destruct o as [x|].
    - change (omap id (Some x :: l)) with (x :: omap id l) in Hl.
      apply Forall_cons in Hl as [Hx Hl]. split; [by constructor|done].
    - change (omap id (None :: l)) with (omap id l) in Hl.
      split; [constructor|done]. }
  pose proof (thread_option_sizes o st Ho) as Hhead.
  destruct (thread_option (visit method) o st) as [o' st1].
  specialize (IH st1 Hrest).
  destruct (thread (thread_option (visit method)) l st1) as [l' st2].
  simpl in *. lia.
Qed.

(** Every update stands for one call node put around one node of the tree,
    and nothing else is added or removed: the rewritten tree has as many
    nodes more than the original as there are updates. *)
Lemma visit_adds_one_node_per_update (n : node) :
  ∀ st, node_size (visit method n st).1 + length st
        = node_size n + length (visit method n st).2.
Proof.
  induction n as [n IH] using node_children_ind. intros st.
  destruct (method n st) as [r|] eqn:Hm.
  - (* a name or an attribute access wrapped in a call *)
    destruct n; try done; simpl in Hm |- *; rewrite Hm.
    + destruct (imports !! id) as [info|]; [|done].
      case_bool_decide; [|done]. injection Hm as <-. simpl.
      rewrite length_app. simpl. lia.
    + destruct n; try done.
      destruct (imports !! _) as [info|]; [|done].
      case_bool_decide; [|done]. injection Hm as <-. simpl.
      rewrite length_app. simpl. lia.
  - destruct n; cbn [visit]; rewrite Hm; simpl in IH |- *;
      repeat (rewrite Forall_cons in IH || rewrite Forall_app in IH);
      destruct_and?;
      repeat match goal with
      | H : Forall _ ?l |- context [thread (visit method) ?l ?s] =>
          let Hs := fresh "Hs" in
          pose proof (thread_sizes l s H) as Hs;
          destruct (thread (visit method) l s) as [? ?]; simpl in Hs
      | H : Forall _ (option_list ?o)
        |- context [thread_option (visit method) ?o ?s] =>
          let Hs := fresh "Hs" in
          pose proof (thread_option_sizes o s H) as Hs;
          destruct (thread_option (visit method) o s) as [? ?]; simpl in Hs
      | H : Forall _ (omap id ?l)
        |- context [thread (thread_option (visit method)) ?l ?s] =>
          let Hs := fresh "Hs" in
          pose proof (thread_options_sizes l s H) as Hs;
          destruct (thread (thread_option (visit method)) l s) as [? ?];
          simpl in Hs
      | H : ∀ st, node_size (visit method ?x st).1 + _ = _
        |- context [visit method ?x ?s] =>
          let Hs := fresh "Hs" in
          pose proof (H s) as Hs;
          destruct (visit method x s) as [? ?]; simpl in Hs
      end; simpl; lia.
Qed.

(** What the rewriter returns for a parsed file: the tree grows by one node
    for each update (the call put around the flagged node), and each update
    reports the text of the flagged name or access and that text followed by
    [()]. *)
Theorem transform_usages_one_call_per_update (tree : node) :
  node_size (transform_usages imports converted_vars tree).1
  = node_size tree
    + length (transform_usages imports converted_vars tree).2
  ∧ Forall (λ u, updated u = original u +:+ "()")
      (transform_usages imports converted_vars tree).2.
Proof.
  split.
  - pose proof (visit_adds_one_node_per_update tree []) as Hsize.
    unfold transform_usages. simpl in Hsize. lia.
  - unfold transform_usages.
    pose proof (VisitFacts.visit_state method
                  (λ ups ups', ∃ new,
                      ups' = ups ++ new
                      ∧ Forall (λ u, updated u = original u +:+ "()") new))
      as Hvisit.
    destruct Hvisit with (n := tree) (st := @nil UsageUpdate)
      as (new & -> & Hnew); [| | |done].
    + intros st. exists []. by rewrite app_nil_r.
    + intros a b c (n1 & -> & H1) (n2 & -> & H2). exists (n1 ++ n2).
      rewrite app_assoc. split; [done|]. by apply Forall_app.
    + intros n st r Hm. destruct n; try done; simpl in Hm.
      * destruct (imports !! id) as [info|]; [|done].
        case_bool_decide; [|done]. injection Hm as <-. simpl.
        eexists. split; [done|]. by constructor.
      * destruct n; try done.
        destruct (imports !! _) as [info|]; [|done].
        case_bool_decide; [|done]. injection Hm as <-. simpl.
        eexists. split; [done|]. constructor; [|done]. simpl.
        by rewrite !append_assoc.
Qed.

End Rewriter.

(** Without bindings in the alias table the rewriter returns the tree as it
    is and records no update. *)
Theorem transform_usages_without_bindings (converted_vars : gset string)
    (tree : node) :
  transform_usages ∅ converted_vars tree = (tree, []).
Proof.
  unfold transform_usages. apply TransformerMore.visit_fixed.
  intros d st _. left. destruct d as [| | | | | | | | | | value | | | |];
    try done; simpl.
  destruct value; done.
Qed.

End UsageMore.

(** ** [update_usage_file], further *)

Module UpdateFileMore.

Import UsageUpdater Engine Notions UsageFacts.

(** A consuming file whose text does not parse is passed over: no text, no
    update, no warning, and no exception. *)
Theorem update_usage_file_syntax_error parse unparse
    (file_path target module_root : path) (converted_vars : gset string)
    (w : world) (text : string) :
  files w !! file_path = Some (File (Some text)) →
  parse text = None →
  (update_usage_file parse unparse file_path target module_root
     converted_vars w).1
  = Ok (None, [], []).
Proof.
  intros Hfile Hparse. unfold update_usage_file.
  destruct (no_module _); [done|].
  unfold mbind, io_mbind, io_bind, analyze_imports.
  rewrite (read_file_text _ _ _ Hfile).
  unfold mbind, io_mbind, io_bind.
  rewrite (read_file_text file_path _ text) by done.
  by rewrite Hparse.
Qed.

Lemma update_usage_file_syntax_error_witness :
  (update_usage_file Examples.example_parse Unparse.unparse Examples.app_py
     Examples.config_py ["proj"] {["schema_name"]}
     (Examples.project Examples.config_text "from config import (")).1
  = Ok (None, [], []).
Proof.
  apply (update_usage_file_syntax_error _ _ _ _ _ _ _ "from config import (").
  - vm_compute. reflexivity.
  - vm_compute. reflexivity.
Defined.

End UpdateFileMore.

(** ** cli.py, further: what a run leaves in the files, and how it ends *)

Module CliMore.

Import Analyzer Transformer UsageUpdater Engine Notions RunNotions CliFacts.

Section Run.
Variable parse : string → option node.
Variable unparse : node → string.
Variable find_git_root : path → option path.

Abbreviation the_run := (run parse unparse find_git_root).
Abbreviation the_try_block := (try_block parse unparse find_git_root).

(** A text comes back only for a file that was read. *)
Lemma usage_text_readable (fs : filesystem) (target root : path)
    (cv : gset string) (p : path) (new_text : string) :
  usage_text parse unparse fs target root cv p = Some new_text →
  ∃ text, fs !! p = Some (File (Some text)).
Proof.
  unfold usage_text, usage_result, update_usage_file.
  destruct (no_module _); [done|].
  unfold mbind, io_mbind, io_bind, read_file. simpl.
  destruct (fs !! p) as [[|[text|]]|]; simpl; try done. eauto.
Qed.

(** *** The files to update *)

Lemma dict_set_keys (d : list (path * string)) (k : path) (v : string)
    (x : path) :
  x ∈ (dict_set d k v).*1 ↔ x = k ∨ x ∈ d.*1.
Proof.
  induction d as [|[k' v'] d IH]; simpl.
  - rewrite list_elem_of_singleton, elem_of_nil. tauto.
  - case_bool_decide as Hk; simpl.
    + subst k'. rewrite !elem_of_cons. tauto.
    + rewrite !elem_of_cons, IH. tauto.
Qed.

Lemma dict_set_NoDup (d : list (path * string)) (k : path) (v : string) :
  NoDup d.*1 → NoDup (dict_set d k v).*1.
Proof.
  induction d as [|[k' v'] d IH]; simpl.
  - intros _. apply NoDup_singleton.
  - intros [Hnotin Hd]%NoDup_cons. case_bool_decide as Hk; simpl.
    + subst k'. by apply NoDup_cons.
    + apply NoDup_cons. split; [|by apply IH].
      rewrite dict_set_keys. intros [->|Hin]; [by apply Hk|by apply Hnotin].
Qed.

Lemma list_to_map_dict_set (d : list (path * string)) (k : path)
    (v : string) :
  (list_to_map (dict_set d k v) : gmap path string)
  = <[k := v]> (list_to_map d).
Proof.
  induction d as [|[k' v'] d IH]; simpl; [done|].
  case_bool_decide as Hk; simpl.
  - subst k'. by rewrite insert_insert_eq.
  - rewrite IH. by apply insert_insert_ne.
Qed.

(** What the loop over the files in scope keeps: for each file other than
    the target, the text that [update_usage_file] returns for it. *)
Lemma usage_loop_collects (target root : path) (var_names : gset string)
    (l : list path) files_to_update star_warnings
    (w : world) files_to_update' star_warnings' :
  (for_each (usage_loop_body parse unparse target root var_names)
     (files_to_update, star_warnings) l w).1
  = Ok (files_to_update', star_warnings') →
  NoDup files_to_update.*1 →
  NoDup files_to_update'.*1
  ∧ ∀ p, (list_to_map files_to_update' : gmap path string) !! p
         = match (if bool_decide (p ∈ l ∧ p ≠ target)
                  then usage_text parse unparse (files w) target root
                         var_names p
                  else None) with
           | Some text => Some text
           | None => (list_to_map files_to_update : gmap path string) !! p
           end.
Proof.
  revert files_to_update star_warnings w.
  induction l as [|x l IH]; intros ftu sw w; cbn [for_each].
  - intros [= <- <-] Hnodup. split; [done|]. intros p.
    rewrite bool_decide_eq_false_2; [done|]. by intros [?%elem_of_nil _].
  - unfold io_bind.
    pose proof (usage_loop_body_step parse unparse target root var_names
                  ftu sw x w) as Hstep.
    destruct (read_only_usage_loop_body parse unparse target root var_names
                (ftu, sw) x w) as [Hfiles _].
    destruct (usage_loop_body _ _ _ _ _ (ftu, sw) x w)
      as [[[ftu1 sw1]|e] w1]; simpl in *; [|done].
    intros Hloop Hnodup.
    assert (ftu1 = if bool_decide (x = target) then ftu
                   else match usage_text parse unparse (files w) target root
                                var_names x with
                        | Some text => dict_set ftu x text
                        | None => ftu
                        end) as Hftu1.
    { revert Hstep. unfold usage_text. case_bool_decide; [congruence|].
      destruct (usage_result _ _ _ _ _ _ x) as [[[[text|] ups] ws]|e];
        [| |done]; intros [= -> _]; [|done]. by case_bool_decide. }
    clear Hstep.
    assert (NoDup ftu1.*1) as Hnodup1.
    { subst ftu1. case_bool_decide; [done|].
      destruct (usage_text _ _ _ _ _ _ x); [by apply dict_set_NoDup|done]. }
    destruct (IH ftu1 sw1 w1 Hloop Hnodup1) as [Hnodup' Hlookup].
    split; [done|]. intros p. rewrite Hlookup, Hfiles.
    assert ((list_to_map ftu1 : gmap path string) !! p
            = match (if bool_decide (p = x ∧ p ≠ target)
                     then usage_text parse unparse (files w) target root
                            var_names p
                     else None) with
              | Some text => Some text
              | None => (list_to_map ftu : gmap path string) !! p
              end) as ->.
    { subst ftu1. case_bool_decide as Hx.
      - subst x. rewrite bool_decide_eq_false_2; [done|]. by intros [-> ?].
      - case_bool_decide as Hp.
        + destruct Hp as [-> _].
          destruct (usage_text _ _ _ _ _ _ x) as [text|]; [|done].
          by rewrite list_to_map_dict_set, lookup_insert_eq.
        + destruct (usage_text _ _ _ _ _ _ x) as [text|]; [|done].
          rewrite list_to_map_dict_set, lookup_insert_ne; [done|].
          intros ->. by apply Hp. }
    rewrite (bool_decide_ext (p ∈ x :: l ∧ p ≠ target)
               ((p = x ∧ p ≠ target) ∨ (p ∈ l ∧ p ≠ target))).
    2: { rewrite elem_of_cons. tauto. }
    destruct (bool_decide_reflect (p ∈ l ∧ p ≠ target)) as [Hl|Hl];
      destruct (bool_decide_reflect (p = x ∧ p ≠ target)) as [Hx|Hx].
    + rewrite bool_decide_eq_true_2 by tauto.
      by destruct (usage_text _ _ _ _ _ _ p).
    + rewrite bool_decide_eq_true_2 by tauto.
      by destruct (usage_text _ _ _ _ _ _ p).
    + rewrite bool_decide_eq_true_2 by tauto. done.
    + rewrite bool_decide_eq_false_2 by tauto. done.
Qed.

(** The files to update are files in scope, other than the target, that
    were read. *)
Lemma files_to_update_in_scope (target root : path) (var_names : gset string)
    (l : list path) (w : world) files_to_update star_warnings (p : path) :
  (for_each (usage_loop_body parse unparse target root var_names)
     ([], []) l w).1
  = Ok (files_to_update, star_warnings) →
  p ∈ files_to_update.*1 →
  p ∈ l ∧ p ≠ target ∧ ∃ text, files w !! p = Some (File (Some text)).
Proof.
  intros Hloop Hp.
  destruct (usage_loop_collects _ _ _ _ _ _ _ _ _ Hloop (NoDup_nil_2))
    as [Hnodup Hlookup].
  destruct ((list_to_map files_to_update : gmap path string) !! p)
    as [text|] eqn:Htext.
  2: { by apply (not_elem_of_list_to_map_2 (M := gmap path)) in Htext. }
  rewrite Hlookup, list_to_map_nil, lookup_empty in Htext.
  case_bool_decide as Hscope; [|done].
  destruct Hscope as [Hl Hne]. split; [done|]. split; [done|].
  destruct (usage_text _ _ _ _ _ _ p) as [new_text|] eqn:Hnew; [|done].
  by apply usage_text_readable in Hnew.
Qed.

(** *** The writes *)

Abbreviation write_all :=
  (for_each (fun (_ : unit) '(file_path, new_source) =>
               write_file file_path new_source) tt).

Lemma write_file_written (p : path) (text : string) (w : world) :
  (write_file p text w).1 = Ok tt →
  files (write_file p text w).2 = <[p := File (Some text)]> (files w).
Proof. unfold write_file. by destruct (refuses_write w p). Qed.

Lemma write_file_changes (p : path) (text : string) (w : world) (q : path) :
  files (write_file p text w).2 !! q ≠ files w !! q →
  (write_file p text w).1 = Ok tt ∧ q = p.
Proof.
  unfold write_file. destruct (refuses_write w p); simpl; [done|].
  intros Hq. split; [done|]. destruct (decide (q = p)); [done|].
  by rewrite lookup_insert_ne in Hq.
Qed.

Lemma write_all_returns (files_to_update : list (path * string))
    (w : world) :
  NoDup files_to_update.*1 →
  (write_all files_to_update w).1 = Ok tt →
  ∀ p, files (write_all files_to_update w).2 !! p
       = match (list_to_map files_to_update : gmap path string) !! p with
         | Some text => Some (File (Some text))
         | None => files w !! p
         end.
Proof.
  revert w. induction files_to_update as [|[k v] d IH]; intros w Hnodup;
    cbn [for_each]; [done|].
  apply NoDup_cons in Hnodup as [Hk Hd]. unfold io_bind.
  pose proof (write_file_written k v w) as Hwritten.
  destruct (write_file k v w) as [[[]|e] w1]; simpl in *; [|done].
  intros Hok p. rewrite IH, Hwritten by done. simpl.
  destruct (decide (p = k)) as [->|Hne].
  - rewrite !lookup_insert_eq.
    by rewrite (not_elem_of_list_to_map_1 (M := gmap path) _ _ Hk).
  - by rewrite !lookup_insert_ne.
Qed.

Lemma write_all_changes (files_to_update : list (path * string))
    (w : world) (p : path) :
  files (write_all files_to_update w).2 !! p ≠ files w !! p →
  p ∈ files_to_update.*1
  ∧ ∃ text, files (write_all files_to_update w).2 !! p
            = Some (File (Some text)).
Proof.
  revert w. induction files_to_update as [|[k v] d IH]; intros w;
    cbn [for_each]; [done|].
  unfold io_bind.
  pose proof (write_file_written k v w) as Hwritten.
  pose proof (write_file_changes k v w p) as Hchanges.
  destruct (write_file k v w) as [[[]|e] w1]; simpl in *.
  - intros Hp.
    destruct (decide (files (write_all d w1).2 !! p = files w1 !! p))
      as [Hsame|Hdiff].
    + rewrite Hsame in Hp |- *. destruct (Hchanges Hp) as [_ ->].
      split; [by apply list_elem_of_here|].
      rewrite Hwritten, lookup_insert_eq by done. eauto.
    + destruct (IH w1 Hdiff) as [Hin Hfile].
      split; [by apply list_elem_of_further|done].
  - intros Hp. by destruct (Hchanges Hp).
Qed.

(** *** What a run leaves in the files *)

Lemma try_block_returns (args : arguments) (w : world) :
  (the_try_block args w).1 = Ok tt → (the_run args w).1 = Ok tt.
Proof.
  unfold try_block, try_except.
  destruct (the_run args w) as [[[]|e] w1]; [done|].
  by destruct (is_Exception e).
Qed.


(** What the [try] block changes, whether or not it returns. *)
Lemma try_block_changes (args : arguments) (w : world) (p : path) :
  files (the_try_block args w).2 !! p ≠ files w !! p →
  apply args = true
  ∧ (∃ text, files w !! p = Some (File (Some text)))
  ∧ (∃ text, files (the_try_block args w).2 !! p = Some (File (Some text)))
  ∧ (p = target_file args
     ∨ ∃ root,
         Scanner.find_module_root (files w)
           (find_git_root (parent (target_file args))) (target_file args)
         = Some root
         ∧ p ∈ find_python_files (files w) root).
Proof.
  rewrite try_block_world.
  destruct (run_cases parse unparse find_git_root args w)
    as [(Hsame & _ & _)
       |(Happly & text & tree & variables & skipped & root & ftu & sw & w3
         & Htarget & Hparse & Hfound & Hroot & Hloop & Hfiles & _ & Hrun)].
  { intros Hp. destruct Hp. by rewrite Hsame. }
  rewrite Hrun. unfold mbind, io_mbind, io_bind.
  pose proof (write_file_written (target_file args)
                (unparse
                   (FixLocations.fix_missing_locations
                      (transform_tree (list_to_set (name <$> variables))
                         tree))) w3) as Hwritten.
  pose proof (write_file_changes (target_file args)
                (unparse
                   (FixLocations.fix_missing_locations
                      (transform_tree (list_to_set (name <$> variables))
                         tree))) w3 p) as Hchanges.
  destruct (write_file (target_file args) _ w3) as [[[]|e] w4]; simpl in *.
  2: { rewrite <- Hfiles. intros Hp. by destruct (Hchanges Hp). }
  intros Hp. split; [done|].
  destruct (decide (files (write_all ftu w4).2 !! p = files w4 !! p))
    as [Hsame|Hdiff].
  - rewrite Hsame in Hp |- *. rewrite <- Hfiles in Hp.
    destruct (Hchanges Hp) as [_ ->]. rewrite Hwritten, lookup_insert_eq by done.
    eauto 6.
  - destruct (write_all_changes ftu w4 p Hdiff) as [Hin Hfile].
    destruct (files_to_update_in_scope _ _ _ _ _ _ _ _ Hloop Hin)
      as (Hscope & Hne & Hreadable).
    simpl in Hreadable. split; [done|]. split; [done|]. right. eauto.
Qed.


(** The [try] block creates no path and removes none. *)
Theorem try_block_keeps_paths (args : arguments) (w : world) :
  dom (files (the_try_block args w).2) = dom (files w).
Proof.
  apply set_eq. intros p. rewrite !elem_of_dom.
  destruct (decide (files (the_try_block args w).2 !! p = files w !! p))
    as [->|Hdiff]; [done|].
  destruct (try_block_changes args w p Hdiff)
    as (_ & [text ->] & [text' ->] & _).
  by split.
Qed.

(** *** How a run ends *)

Lemma write_all_raises (files_to_update : list (path * string))
    (w : world) (e : exn) :
  (write_all files_to_update w).1 = Raise e → e = OSError.
Proof.
  revert w. induction files_to_update as [|[k v] d IH]; intros w;
    cbn [for_each]; [done|].
  unfold io_bind, write_file at 1.
  destruct (refuses_write w k); simpl; [by intros [= <-]|]. apply IH.
Qed.

(** The two loops of the [try] block raise nothing that its handler lets
    through. *)
Lemma after_analysis_raises (args : arguments) (variables : list Variable_)
    (root : path) (python_files : list path) (w : world) (e : exn) :
  (after_analysis parse unparse args variables root python_files w).1
  = Raise e →
  is_Exception e = true.
Proof.
  rewrite after_analysis_steps. cbv zeta.
  pose proof (usage_loop_raises parse unparse (target_file args) root
                (list_to_set (name <$> variables)) python_files ([], []) w)
    as Hraises.
  destruct (for_each _ _ _ w) as [[[ftu sw]|e1] w2]; simpl in *.
  2: { intros [= ->]. by destruct (Hraises e eq_refl) as [-> _]. }
  destruct (apply args); [|done].
  rewrite transform_file_run. simpl.
  destruct (files w2 !! target_file args) as [[|[text|]]|];
    try by intros [= <-].
  destruct (parse text) as [tree|]; [|by intros [= <-]].
  unfold mbind, io_mbind, io_bind, write_file at 1.
  destruct (refuses_write _ _); simpl; [by intros [= <-]|].
  by intros ->%write_all_raises.
Qed.

(** The [try] block exits with status 0 exactly when the target is read and
    parses and the analysis reports neither a variable nor a skipped
    pattern. *)
Theorem try_block_exit_zero_iff (args : arguments) (w : world) :
  (the_try_block args w).1 = Raise (SystemExit 0)
  ↔ ∃ text tree,
      files w !! target_file args = Some (File (Some text))
      ∧ parse text = Some tree
      ∧ analyze_tree text tree = ([], []).
Proof.
  unfold try_block, try_except. rewrite run_steps. split.
  - destruct (files w !! target_file args) as [[|[text|]]|]; try done.
    destruct (parse text) as [tree|] eqn:Hparse; [|done].
    destruct (analyze_tree text tree) as [variables skipped] eqn:Hfound.
    destruct (bool_decide_reflect (variables = [])) as [->|?];
      destruct (bool_decide_reflect (skipped = [])) as [->|?]; simpl;
      [intros _; by exists text, tree| | |];
      (destruct (Scanner.find_module_root _ _ _) as [root|]; [|done]);
      match goal with
      | |- context [after_analysis ?pa ?un ?ar ?va ?ro ?py ?w'] =>
          pose proof (after_analysis_raises ar va ro py w') as Hraises;
          destruct (after_analysis pa un ar va ro py w') as [[[]|e] w2];
          simpl in *; [done|by rewrite (Hraises e eq_refl)]
      end.
  - intros (text & tree & -> & -> & ->). done.
Qed.

End Run.

(** *** The checks on the target *)

Section Checks.
Variable parse : string → option node.
Variable unparse : node → string.
Variable find_git_root : path → option path.
Variable fnmatch : string → string → bool.
Variable home : path.
Variable json_load : string → option Config.json.
Variable json_dump : Config.json → string.

Abbreviation the_cli :=
  (cli parse unparse find_git_root fnmatch home json_load json_dump).

(** config.py opens no file but the pattern store, and changes no entry but
    the store and the directories above it, whatever the store holds and
    however [get_glob_pattern] ends. *)
Theorem get_glob_pattern_touches_store_only
    (pattern_override : option string) :
  store_only (Config.CONFIG_FILE home)
    (Config.get_glob_pattern home json_load json_dump pattern_override).
Proof. apply store_only_get_glob_pattern. Qed.

(** A target that is missing or is not a file ends the run with exit status
    1 before anything is read or written, the pattern store included. *)
Theorem cli_rejects_missing_target (args : arguments) (w : world) :
  path_is_file (files w) (target_file args) = false →
  the_cli (Ok args) w = (Raise (SystemExit 1), w).
Proof.
  unfold cli, mbind, io_mbind, io_bind, lift, get_files, path_exists,
    path_is_file.
  by destruct (files w !! target_file args) as [[|text]|].
Qed.

End Checks.



Lemma cli_rejects_missing_target_witness :
  let w := Examples.project Examples.config_text Examples.reader_text in
  Examples.example_cli (mkArgs ["proj"; "notes.txt"] (Some "*.txt") true) w
  = (Raise (SystemExit 1), w).
Proof.
  apply (cli_rejects_missing_target Examples.example_parse Unparse.unparse
           Examples.no_git_root Examples.fnmatch_py Examples.home
           Examples.example_json_load Examples.example_json_dump
           (mkArgs ["proj"; "notes.txt"] (Some "*.txt") true)).
  vm_compute. reflexivity.
Defined.

End CliMore.
